(** * The iTunes search route ([backend/routes/search.js])

    A shallow embedding of the search pipeline of the backend: the
    parameter validator [validateSearchParams], the upstream query
    builder [buildItunesUrl], the response normalizer
    [processItunesResponse] and the [GET /] handler that sequences
    them, followed by the properties of the specification that concern
    them.

    JavaScript values are embedded as the inductive [JsVal]; objects
    are finite maps from property names to values.  A [string] holds
    the UTF-8 bytes of a JavaScript string.  What the language leaves
    to the engine (the 64-bit floating point numbers and their decimal
    rendering, date parsing, the locale) is the interface [JsEnv];
    every definition and theorem is parametric in it.

    After the specification come the parts of the repository around
    the route: the lookup route and the middleware in front of both
    ([middleware/auth.js]), the client that calls them
    ([services/api.js], [App.js], the favourites) and the logger
    ([utils/logger.js]), with the properties that their code shows. *)

From Stdlib Require Import ZArith Ascii String List DecimalString.
From stdpp Require Import gmap strings list.

#[local] Set Warnings "-register-all,-clear-no-such-hyp".
#[local] Open Scope string_scope.
#[local] Open Scope Z_scope.

(** ** The engine interface *)

(** [number] stands for the IEEE doubles of the engine.  [num_truthy n]
    is [false] exactly for [+0], [-0] and [NaN]; [num_to_string] is
    [Number::toString]; [str_to_number] is [StringToNumber];
    [num_gt_zero n] is [n > 0].  [time] is a finite time value:
    [date_parse] and [date_of_number] return [None] for the time value
    [NaN] of an invalid date. *)
Class JsEnv := {
  number : Type;
  num_of_Z : Z -> number;
  num_truthy : number -> bool;
  num_to_string : number -> string;
  num_gt_zero : number -> bool;
  str_to_number : string -> number;
  time : Type;
  date_parse : string -> option time;
  date_of_number : number -> option time;
  to_locale_date_string : time -> string;
}.

(** ** Exceptions *)

(** What the [catch] block of the handler reads of a thrown value:
    [error.code], [error.response?.status] ([None] when the error has
    no [response]) and [error.message]. *)
Record JsError := {
  err_code : option string;
  err_status : option Z;
  err_message : string;
}.

Inductive Result (A : Type) : Type :=
| Ok (a : A)
| Throw (e : JsError).
Arguments Ok {A} a.
Arguments Throw {A} e.

Definition bind {A B : Type} (r : Result A) (k : A -> Result B) : Result B :=
  match r with
  | Ok a => k a
  | Throw e => Throw e
  end.

Notation "x <- r ;; k" := (bind r (fun x => k))
  (at level 100, r at next level, right associativity).

(** A [TypeError] raised by the engine: no [code], no [response]. *)
Definition TypeError (msg : string) : JsError :=
  {| err_code := None; err_status := None; err_message := msg |}.

(** ** String primitives *)

(** The decimal digits of an integer, with a leading [-] when negative. *)
Definition Z_to_string (z : Z) : string := NilZero.string_of_int (Z.to_int z).

Definition nat_to_string (n : nat) : string := Z_to_string (Z.of_nat n).

Definition ascii_code (c : ascii) : N := N_of_ascii c.

Definition in_range (lo hi : N) (c : ascii) : bool :=
  ((lo <=? ascii_code c) && (ascii_code c <=? hi))%N.

Definition str_rev (s : string) : string :=
  string_of_list_ascii (rev (list_ascii_of_string s)).

(** [strip_prefix p s] is [Some r] when [s = p ++ r]. *)
Fixpoint strip_prefix (p s : string) : option string :=
  match p, s with
  | EmptyString, _ => Some s
  | String a p', String b s' => if Ascii.eqb a b then strip_prefix p' s' else None
  | String _ _, EmptyString => None
  end.

(** The UTF-8 encodings of the code points that [WhiteSpace] and
    [LineTerminator] contain: TAB, LF, VT, FF, CR, SP, U+00A0, U+1680,
    U+2000 to U+200A, U+2028, U+2029, U+202F, U+205F, U+3000, U+FEFF. *)
Definition bytes (l : list N) : string :=
  string_of_list_ascii (map ascii_of_N l).

Definition WHITE_SPACE : list string :=
  map bytes
    [ [9]; [10]; [11]; [12]; [13]; [32]; [194; 160]; [225; 154; 128];
      [226; 128; 128]; [226; 128; 129]; [226; 128; 130]; [226; 128; 131];
      [226; 128; 132]; [226; 128; 133]; [226; 128; 134]; [226; 128; 135];
      [226; 128; 136]; [226; 128; 137]; [226; 128; 138]; [226; 128; 168];
      [226; 128; 169]; [226; 128; 175]; [226; 129; 159]; [227; 128; 128];
      [239; 187; 191] ]%N.

(** The rest of [s] after the first of [pats] that is a prefix of it. *)
Fixpoint strip_any (pats : list string) (s : string) : option string :=
  match pats with
  | [] => None
  | p :: ps =>
      match strip_prefix p s with
      | Some r => Some r
      | None => strip_any ps s
      end
  end.

Fixpoint strip_all (pats : list string) (fuel : nat) (s : string) : string :=
  match fuel with
  | O => s
  | S fuel' =>
      match strip_any pats s with
      | Some r => strip_all pats fuel' r
      | None => s
      end
  end.

(** [String.prototype.trimStart], [trimEnd] and [trim]. *)
Definition trimStart (s : string) : string :=
  strip_all WHITE_SPACE (String.length s) s.

Definition trimEnd (s : string) : string :=
  str_rev (strip_all (map str_rev WHITE_SPACE) (String.length s) (str_rev s)).

Definition trim (s : string) : string := trimEnd (trimStart s).

(** [s.replace(pat, rep)] for a string pattern: the first occurrence
    only ([rep] holds no [$]). *)
Fixpoint replace_first (pat rep s : string) : string :=
  match strip_prefix pat s with
  | Some r => rep ++ r
  | None =>
      match s with
      | EmptyString => EmptyString
      | String c s' => String c (replace_first pat rep s')
      end
  end.

(** [/^[A-Z]{2}$/.test(s)] *)
Definition is_upper (c : ascii) : bool := in_range 65 90 c.

Definition test_country_code (s : string) : bool :=
  match s with
  | String a (String b EmptyString) => is_upper a && is_upper b
  | _ => false
  end.

(** *** [parseInt] with no radix *)

Definition digit_value (c : ascii) : option Z :=
  if in_range 48 57 c then Some (Z.of_N (ascii_code c) - 48)
  else if in_range 97 122 c then Some (Z.of_N (ascii_code c) - 87)
  else if in_range 65 90 c then Some (Z.of_N (ascii_code c) - 55)
  else None.

(** The longest prefix of radix-[R] digits, read most significant
    first; [None] when there is no digit at all. *)
Fixpoint read_digits (R : Z) (acc : option Z) (s : string) : option Z :=
  match s with
  | EmptyString => acc
  | String c s' =>
      match digit_value c with
      | Some d =>
          if d <? R then read_digits R (Some (default 0 acc * R + d)) s'
          else acc
      | None => acc
      end
  end.

(** [parseInt(s)]: leading white space is skipped, then an optional
    sign, then an optional [0x]/[0X] that selects radix 16, then the
    digits.  [None] is [NaN].  The engine rounds the integer to the
    nearest double, which preserves its order with 1 and 200. *)
Definition parseInt (s : string) : option Z :=
  let s1 := trimStart s in
  let '(sign, s2) :=
    match s1 with
    | String "-" r => (-1, r)
    | String "+" r => (1, r)
    | _ => (1, s1)
    end in
  let '(R, s3) :=
    match s2 with
    | String "0" (String "x" r) => (16, r)
    | String "0" (String "X" r) => (16, r)
    | _ => (10, s2)
    end in
  match read_digits R None s3 with
  | Some n => Some (sign * n)
  | None => None
  end.

(** *** The [application/x-www-form-urlencoded] serializer *)

Definition hex_digit (n : N) : ascii :=
  if (n <? 10)%N then ascii_of_N (48 + n) else ascii_of_N (55 + n).

(** Bytes that the serializer leaves as they are: ASCII alphanumerics
    and [*], [-], [.], [_]. *)
Definition urlencoded_safe (c : ascii) : bool :=
  in_range 48 57 c || in_range 65 90 c || in_range 97 122 c
  || Ascii.eqb c "*" || Ascii.eqb c "-" || Ascii.eqb c "." || Ascii.eqb c "_".

Definition urlencode_byte (c : ascii) : string :=
  if Ascii.eqb c " " then "+"
  else if urlencoded_safe c then String c EmptyString
  else String "%" (String (hex_digit (ascii_code c / 16))
                     (String (hex_digit (ascii_code c mod 16)) EmptyString)).

Fixpoint urlencode (s : string) : string :=
  match s with
  | EmptyString => EmptyString
  | String c s' => urlencode_byte c ++ urlencode s'
  end.

(** [URLSearchParams.prototype.toString] on the list of pairs. *)
Fixpoint serialize_params (l : list (string * string)) : string :=
  match l with
  | [] => EmptyString
  | [(k, v)] => urlencode k ++ "=" ++ urlencode v
  | (k, v) :: rest => urlencode k ++ "=" ++ urlencode v ++ "&" ++ serialize_params rest
  end.

(** [a.join(sep)] on strings. *)
Fixpoint join (sep : string) (l : list string) : string :=
  match l with
  | [] => EmptyString
  | [x] => x
  | x :: rest => x ++ sep ++ join sep rest
  end.

(** ** JavaScript values *)

Section Values.
Context {E : JsEnv}.

(** The values that a parsed JSON body or a parsed query string holds,
    and [undefined].  An object is the finite map of its own
    properties (the order of the keys is not recorded). *)
Inductive JsVal : Type :=
| JUndefined
| JNull
| JBool (b : bool)
| JNum (n : number)
| JStr (s : string)
| JArr (xs : list JsVal)
| JObj (props : gmap string JsVal).

(** [ToBoolean] *)
Definition truthy (v : JsVal) : bool :=
  match v with
  | JUndefined | JNull => false
  | JBool b => b
  | JNum n => num_truthy n
  | JStr s => negb (String.eqb s "")
  | JArr _ | JObj _ => true
  end.

(** [a || b], with [b] already evaluated (its evaluation has no effect
    wherever this is used). *)
Definition js_or (a b : JsVal) : JsVal := if truthy a then a else b.

Definition nullish (v : JsVal) : bool :=
  match v with
  | JUndefined | JNull => true
  | _ => false
  end.

(** [ToString].  An array is joined with commas, [null] and [undefined]
    elements giving the empty string.  A plain object gives
    ["[object Object]"] through [Object.prototype.toString], unless an
    own property [toString] (never callable in parsed data) shadows it:
    then [valueOf] cannot yield a primitive either and the conversion
    throws. *)
Fixpoint to_string (v : JsVal) : Result string :=
  match v with
  | JUndefined => Ok "undefined"
  | JNull => Ok "null"
  | JBool true => Ok "true"
  | JBool false => Ok "false"
  | JNum n => Ok (num_to_string n)
  | JStr s => Ok s
  | JArr xs =>
      (fix join_elements (l : list JsVal) : Result string :=
         match l with
         | [] => Ok ""
         | x :: rest =>
             s <- (if nullish x then Ok "" else to_string x) ;;
             match rest with
             | [] => Ok s
             | _ => t <- join_elements rest ;; Ok (s ++ "," ++ t)
             end
         end) xs
  | JObj props =>
      match props !! "toString" with
      | Some _ => Throw (TypeError "Cannot convert object to primitive value")
      | None => Ok "[object Object]"
      end
  end.

(** [v.k] for a key [k] that no prototype defines: a [TypeError] on
    [null] and [undefined], the own property of an object, [undefined]
    on everything else. *)
Definition get (v : JsVal) (k : string) : Result JsVal :=
  match v with
  | JUndefined | JNull =>
      Throw (TypeError ("Cannot read properties of null or undefined, reading " ++ k))
  | JObj props => Ok (default JUndefined (props !! k))
  | _ => Ok JUndefined
  end.

(** The first UTF-8 character of a string (for a character outside
    the Basic Multilingual Plane the engine yields its leading
    surrogate alone, which has no UTF-8 form: the four bytes stand for
    it). *)
Definition utf8_width (c : ascii) : nat :=
  if (ascii_code c <? 192)%N then 1
  else if (ascii_code c <? 224)%N then 2
  else if (ascii_code c <? 240)%N then 3
  else 4.

Definition first_char (s : string) : string :=
  match s with
  | EmptyString => EmptyString
  | String c _ => String.substring 0 (utf8_width c) s
  end.

(** [v?.[0]] *)
Definition opt_index0 (v : JsVal) : JsVal :=
  match v with
  | JArr (x :: _) => x
  | JStr (String c r) => JStr (first_char (String c r))
  | JObj props => default JUndefined (props !! "0")
  | _ => JUndefined
  end.

(** [v?.replace(pat, rep)]: [undefined] on [null] and [undefined], the
    replacement on a string; no other parsed value has a callable
    [replace]. *)
Definition opt_replace (v : JsVal) (pat rep : string) : Result JsVal :=
  match v with
  | JUndefined | JNull => Ok JUndefined
  | JStr s => Ok (JStr (replace_first pat rep s))
  | _ => Throw (TypeError "replace is not a function")
  end.

(** [new Date(v)]: the time value, [None] for [NaN].  A string is
    parsed; an object or array is first converted to a primitive, which
    is its string; the other primitives are converted to a number. *)
Definition new_Date (v : JsVal) : Result (option time) :=
  match v with
  | JStr s => Ok (date_parse s)
  | JNum n => Ok (date_of_number n)
  | JBool b => Ok (date_of_number (num_of_Z (if b then 1 else 0)))
  | JNull => Ok (date_of_number (num_of_Z 0))
  | JUndefined => Ok None
  | JArr _ | JObj _ => s <- to_string v ;; Ok (date_parse s)
  end.

(** [Date.prototype.toLocaleDateString()] *)
Definition toLocaleDateString (d : option time) : string :=
  match d with
  | Some t => to_locale_date_string t
  | None => "Invalid Date"
  end.

(** [v > 0] *)
Definition gt_zero (v : JsVal) : Result bool :=
  match v with
  | JUndefined => Ok false
  | JNull => Ok false
  | JBool b => Ok b
  | JNum n => Ok (num_gt_zero n)
  | JStr s => Ok (num_gt_zero (str_to_number s))
  | JArr _ | JObj _ => s <- to_string v ;; Ok (num_gt_zero (str_to_number s))
  end.

(** The own enumerable properties that [{...v}] copies. *)
Fixpoint index_props (i : nat) (l : list JsVal) : gmap string JsVal :=
  match l with
  | [] => ∅
  | x :: rest => <[nat_to_string i := x]> (index_props (S i) rest)
  end.

Fixpoint utf8_chars (fuel : nat) (s : string) : list string :=
  match fuel, s with
  | S fuel', String c _ =>
      first_char s
      :: utf8_chars fuel' (String.substring (utf8_width c) (String.length s) s)
  | _, _ => []
  end.

Definition spread (v : JsVal) : gmap string JsVal :=
  match v with
  | JObj props => props
  | JArr xs => index_props 0 xs
  | JStr s => index_props 0 (map JStr (utf8_chars (String.length s) s))
  | _ => ∅
  end.

(** An object literal, its properties written in source order. *)
Definition object (l : list (string * JsVal)) : JsVal :=
  JObj (list_to_map l).

End Values.

(** ** The route module *)

Definition ITUNES_BASE_URL : string := "https://itunes.apple.com".
Definition ITUNES_SEARCH_ENDPOINT : string := ITUNES_BASE_URL ++ "/search".

Definition VALID_MEDIA_TYPES : list string :=
  [ "all"; "movie"; "podcast"; "music"; "musicVideo";
    "audiobook"; "shortFilm"; "tvShow"; "software"; "ebook" ].

Definition MEDIA_ENTITIES : gmap string (list string) :=
  list_to_map
    [ ("movie", ["movieArtist"; "movie"]);
      ("podcast", ["podcastAuthor"; "podcast"]);
      ("music", ["musicArtist"; "musicTrack"; "album"; "musicVideo"; "mix"; "song"]);
      ("musicVideo", ["musicArtist"; "musicVideo"]);
      ("audiobook", ["audiobookAuthor"; "audiobook"]);
      ("shortFilm", ["shortFilmArtist"; "shortFilm"]);
      ("tvShow", ["tvEpisode"; "tvSeason"]);
      ("software", ["software"; "iPadSoftware"; "macSoftware"]);
      ("ebook", ["ebook"]);
      ("all", ["movie"; "album"; "allArtist"; "podcast"; "musicVideo"; "mix";
               "audiobook"; "tvSeason"; "allTrack"]) ].

(** The names that [Object.prototype] defines: reading one of them off
    the object literal [MEDIA_ENTITIES] yields a function (or, for
    [__proto__], the prototype), on which [includes] is not callable. *)
Definition OBJECT_PROTOTYPE_KEYS : list string :=
  [ "constructor"; "__defineGetter__"; "__defineSetter__"; "hasOwnProperty";
    "__lookupGetter__"; "__lookupSetter__"; "isPrototypeOf";
    "propertyIsEnumerable"; "toString"; "valueOf"; "__proto__";
    "toLocaleString" ].

Definition mem (s : string) (l : list string) : bool :=
  existsb (String.eqb s) l.

Definition TERM_ERROR : string :=
  "Search term is required and must be a non-empty string".
Definition MEDIA_ERROR : string :=
  "Invalid media type. Valid types: " ++ join ", " VALID_MEDIA_TYPES.
Definition LIMIT_ERROR : string :=
  "Limit must be a number between 1 and 200".
Definition COUNTRY_ERROR : string :=
  "Country must be a valid 2-letter country code (e.g., US, CA, GB)".

Record Validation := {
  isValid : bool;
  errors : list string;
}.

Section Route.
Context {E : JsEnv}.

(** The object [searchParams] that the handler builds from
    [req.query]; an absent field is [JUndefined]. *)
Record SearchParams := {
  term : JsVal;
  media : JsVal;
  limit : JsVal;
  country : JsVal;
  entity : JsVal;
  explicit : JsVal;
}.

(** [a.includes(v)] on an array of strings ([SameValueZero]). *)
Definition includes (l : list string) (v : JsVal) : bool :=
  match v with
  | JStr s => mem s l
  | _ => false
  end.

Definition push_if (c : bool) (msg : string) (errs : list string) : list string :=
  if c then (errs ++ [msg])%list else errs.

(** [!t || typeof t !== 'string' || t.trim().length === 0] *)
Definition term_rejected (t : JsVal) : bool :=
  negb (truthy t) ||
  match t with
  | JStr s => (String.length (trim s) =? 0)%nat
  | _ => true
  end.

(** [isNaN(limit) || limit < 1 || limit > 200] on [parseInt]'s result *)
Definition limit_rejected (n : option Z) : bool :=
  match n with
  | None => true
  | Some n => (n <? 1) || (200 <? n)
  end.

Definition validateSearchParams (params : SearchParams) : Result Validation :=
  let errs := [] in
  let errs := push_if (term_rejected (term params)) TERM_ERROR errs in
  let errs :=
    push_if (truthy (media params) && negb (includes VALID_MEDIA_TYPES (media params)))
            MEDIA_ERROR errs in
  errs <- (if truthy (limit params) then
             s <- to_string (limit params) ;;
             Ok (push_if (limit_rejected (parseInt s)) LIMIT_ERROR errs)
           else Ok errs) ;;
  errs <- (if truthy (country params) then
             s <- to_string (country params) ;;
             Ok (push_if (negb (test_country_code s)) COUNTRY_ERROR errs)
           else Ok errs) ;;
  Ok {| isValid := (length errs =? 0)%nat; errors := errs |}.

(** [v.trim()] *)
Definition call_trim (v : JsVal) : Result string :=
  match v with
  | JStr s => Ok (trim s)
  | JUndefined | JNull =>
      Throw (TypeError "Cannot read properties of null or undefined, reading trim")
  | _ => Throw (TypeError "trim is not a function")
  end.

(** [searchParams.append(name, value)] *)
Definition append (sp : list (string * string)) (name : string) (value : JsVal)
  : Result (list (string * string)) :=
  s <- to_string value ;; Ok (sp ++ [(name, s)])%list.

(** [MEDIA_ENTITIES[mediaType] || []], as far as [includes] can be
    called on it. *)
Definition validEntities (mediaType : JsVal) : Result (list string) :=
  k <- to_string mediaType ;;
  match MEDIA_ENTITIES !! k with
  | Some l => Ok l
  | None =>
      if mem k OBJECT_PROTOTYPE_KEYS
      then Throw (TypeError "validEntities.includes is not a function")
      else Ok []
  end.

(** The list of pairs that [buildItunesUrl] appends to its
    [URLSearchParams]. *)
Definition buildItunesParams (params : SearchParams) : Result (list (string * string)) :=
  t <- call_trim (term params) ;;
  sp <- append [] "term" (JStr t) ;;
  sp <- append sp "media" (js_or (media params) (JStr "all")) ;;
  sp <- append sp "limit" (js_or (limit params) (JStr "50")) ;;
  sp <- append sp "country" (js_or (country params) (JStr "US")) ;;
  sp <- append sp "explicit" (js_or (explicit params) (JStr "Yes")) ;;
  if truthy (entity params) then
    let mediaType := js_or (media params) (JStr "all") in
    valid <- validEntities mediaType ;;
    if includes valid (entity params)
    then append sp "entity" (entity params)
    else Ok sp
  else Ok sp.

Definition buildItunesUrl (params : SearchParams) : Result string :=
  sp <- buildItunesParams params ;;
  Ok (ITUNES_SEARCH_ENDPOINT ++ "?" ++ serialize_params sp).

(** [r || k], where evaluating either side may throw. *)
Definition or_else (r k : Result JsVal) : Result JsVal :=
  v <- r ;; if truthy v then Ok v else k.

Definition artworkUrl_of (item : JsVal) : Result JsVal :=
  or_else (v <- get item "artworkUrl100" ;; opt_replace v "100x100" "300x300")
  (or_else (v <- get item "artworkUrl60" ;; opt_replace v "60x60" "300x300")
  (or_else (v <- get item "artworkUrl30" ;; opt_replace v "30x30" "300x300")
           (get item "artworkUrl100"))).

Definition releaseDate_of (item : JsVal) : Result JsVal :=
  d <- get item "releaseDate" ;;
  if truthy d
  then t <- new_Date d ;; Ok (JStr (toLocaleDateString t))
  else Ok JNull.

Definition formattedPrice_of (item : JsVal) : Result JsVal :=
  p <- get item "trackPrice" ;;
  if truthy p then s <- to_string p ;; Ok (JStr s)
  else
    c <- get item "collectionPrice" ;;
    if truthy c then s <- to_string c ;; Ok (JStr s)
    else Ok (JStr "N/A").

Definition mediaType_of (item : JsVal) : Result JsVal :=
  or_else (get item "wrapperType") (or_else (get item "kind") (Ok (JStr "unknown"))).

Definition primaryGenre_of (item : JsVal) : Result JsVal :=
  or_else (get item "primaryGenreName")
  (or_else (g <- get item "genres" ;; Ok (opt_index0 g)) (Ok (JStr "Unknown"))).

(** [now] is what [Date.now()] returns if it is reached. *)
Definition uniqueId_of (now : number) (item : JsVal) : Result JsVal :=
  or_else (get item "trackId")
  (or_else (get item "collectionId")
  (or_else (get item "artistId") (Ok (JNum now)))).

(** The callback of [results.map]: the object literal
    [{...item, artworkUrl, releaseDate, formattedPrice, mediaType,
    primaryGenre, uniqueId}]. *)
Definition enhance (now : number) (item : JsVal) : Result JsVal :=
  a <- artworkUrl_of item ;;
  r <- releaseDate_of item ;;
  f <- formattedPrice_of item ;;
  m <- mediaType_of item ;;
  g <- primaryGenre_of item ;;
  u <- uniqueId_of now item ;;
  Ok (JObj (<["uniqueId" := u]> (<["primaryGenre" := g]> (<["mediaType" := m]>
           (<["formattedPrice" := f]> (<["releaseDate" := r]>
           (<["artworkUrl" := a]> (spread item)))))))).

(** [results.map(enhance)]; [clock i] is the reading of [Date.now()]
    while item [i] is enhanced. *)
Fixpoint map_enhance (clock : nat -> number) (i : nat) (l : list JsVal)
  : Result (list JsVal) :=
  match l with
  | [] => Ok []
  | item :: rest =>
      x <- enhance (clock i) item ;;
      xs <- map_enhance clock (S i) rest ;;
      Ok (x :: xs)
  end.

(** [searchedAt] is [new Date().toISOString()]. *)
Definition processItunesResponse (clock : nat -> number) (searchedAt : string)
    (data : JsVal) : Result JsVal :=
  r <- get data "results" ;;
  enhancedResults <-
    match js_or r (JArr []) with
    | JArr results => map_enhance clock 0 results
    | _ => Throw (TypeError "results.map is not a function")
    end ;;
  c <- get data "resultCount" ;;
  let resultCount := js_or c (JNum (num_of_Z 0)) in
  hasResults <- gt_zero resultCount ;;
  Ok (object
        [ ("resultCount", resultCount);
          ("results", JArr enhancedResults);
          ("searchInfo",
            object [ ("totalResults", resultCount);
                     ("hasResults", JBool hasResults);
                     ("searchedAt", JStr searchedAt) ]) ]).

End Route.

(** ** The request handler *)

(** What the handler does to the outside, in order: calls of the
    logger and the one call [axios.get(url, {timeout: 10000, ...})]. *)
Inductive Event : Type :=
| LogWarn (msg : string)
| LogInfo (msg : string)
| LogError (msg : string)
| AxiosGet (url : string) (timeout : Z).

(** A computation that performs events and then returns or throws. *)
Definition Eff (A : Type) : Type := (list Event * Result A)%type.

Definition eff_ret {A : Type} (a : A) : Eff A := ([], Ok a).

Definition eff_bind {A B : Type} (c : Eff A) (k : A -> Eff B) : Eff B :=
  match c with
  | (evs, Ok a) => let '(evs', r) := k a in ((evs ++ evs')%list, r)
  | (evs, Throw e) => (evs, Throw e)
  end.

Definition lift {A : Type} (r : Result A) : Eff A := ([], r).

Definition emit (ev : Event) : Eff unit := ([ev], Ok tt).

Notation "x <~ c ;; k" := (eff_bind c (fun x => k))
  (at level 100, c at next level, right associativity).
Notation "c ;;; k" := (eff_bind c (fun _ => k))
  (at level 100, right associativity).

Section Handler.
Context {E : JsEnv}.

Record Response := {
  status : Z;
  body : JsVal;
}.

(** The surroundings of one request: the outcome of the upstream call
    for a URL ([Ok] holds [response.data], [Throw] the rejection), the
    clock, the rendered timestamps, and whether [NODE_ENV] is
    ['development']. *)
Record World := {
  axios_get : string -> Result JsVal;
  clock : nat -> number;
  now_iso : string;
  responseTime : string;
  development : bool;
}.

Definition searchParams_of (query : gmap string JsVal) : SearchParams :=
  {| term := default JUndefined (query !! "term");
     media := default JUndefined (query !! "media");
     limit := default JUndefined (query !! "limit");
     country := default JUndefined (query !! "country");
     entity := default JUndefined (query !! "entity");
     explicit := default JUndefined (query !! "explicit") |}.

Definition strings (l : list string) : JsVal := JArr (map JStr l).

Definition invalid_response (validation : Validation) : Response :=
  {| status := 400;
     body := object
       [ ("error", JStr "Invalid Parameters");
         ("message", JStr "One or more search parameters are invalid");
         ("errors", strings (errors validation));
         ("validMediaTypes", strings VALID_MEDIA_TYPES) ] |}.

(** [parseInt(searchParams.limit) || 50] *)
Definition echoed_limit (l : JsVal) : Result JsVal :=
  s <- to_string l ;;
  match parseInt s with
  | Some n => Ok (JNum (num_of_Z (if n =? 0 then 50 else n)))
  | None => Ok (JNum (num_of_Z 50))
  end.

Definition success_response (w : World) (params : SearchParams) (data : JsVal)
  : Result Response :=
  l <- echoed_limit (limit params) ;;
  Ok {| status := 200;
        body := object
          [ ("success", JBool true);
            ("data", data);
            ("searchParams",
              object [ ("term", term params);
                       ("media", js_or (media params) (JStr "all"));
                       ("limit", l);
                       ("country", js_or (country params) (JStr "US")) ]);
            ("metadata",
              object [ ("responseTime", JStr (responseTime w ++ "ms"));
                       ("searchedAt", JStr (now_iso w));
                       ("apiVersion", JStr "1.0") ]) ] |}.

(** The body of [try]. *)
Definition search_try (w : World) (query : gmap string JsVal) : Eff Response :=
  let searchParams := searchParams_of query in
  validation <~ lift (validateSearchParams searchParams) ;;
  if negb (isValid validation) then
    emit (LogWarn "Invalid search parameters") ;;;
    eff_ret (invalid_response validation)
  else
    itunesUrl <~ lift (buildItunesUrl searchParams) ;;
    emit (LogInfo "iTunes API search request") ;;;
    emit (AxiosGet itunesUrl 10000) ;;;
    data <~ lift (axios_get w itunesUrl) ;;
    processedData <~ lift (processItunesResponse (clock w) (now_iso w) data) ;;
    emit (LogInfo "iTunes API search completed") ;;;
    lift (success_response w searchParams processedData).

Definition code_is (error : JsError) (c : string) : bool :=
  match err_code error with
  | Some c' => String.eqb c' c
  | None => false
  end.

Definition failure (s : Z) (error message : string) : Response :=
  {| status := s;
     body := object [ ("error", JStr error); ("message", JStr message) ] |}.

(** The body of [catch], after the call of the logger. *)
Definition error_response (dev : bool) (error : JsError) : Response :=
  if code_is error "ECONNABORTED" || code_is error "ETIMEDOUT" then
    failure 408 "Request Timeout" "iTunes API request timed out. Please try again."
  else if match err_status error with Some s => s =? 403 | None => false end then
    failure 503 "Service Unavailable"
      "iTunes API is currently unavailable. Please try again later."
  else if match err_status error with
          | Some s => (400 <=? s) && (s <? 500)
          | None => false
          end then
    failure 400 "Bad Request"
      "Invalid request to iTunes API. Please check your search parameters."
  else
    {| status := 500;
       body := object
         ([ ("error", JStr "Search Failed");
            ("message",
              JStr "Unable to complete search request. Please try again later.") ]
          ++ (if dev then [ ("details", JStr (err_message error)) ] else []))%list |}.

(** [router.get('/')]: the events of the request and its one response. *)
Definition search_handler (w : World) (query : gmap string JsVal)
  : list Event * Response :=
  match search_try w query with
  | (evs, Ok res) => (evs, res)
  | (evs, Throw error) =>
      ((evs ++ [LogError "iTunes API search failed"])%list,
       error_response (development w) error)
  end.

Definition field (r : Response) (k : string) : JsVal :=
  match body r with
  | JObj props => default JUndefined (props !! k)
  | _ => JUndefined
  end.

Definition calls_upstream (evs : list Event) : bool :=
  existsb (fun ev => match ev with AxiosGet _ _ => true | _ => false end) evs.

End Handler.

(** ** A small engine for running examples *)

(** An engine whose numbers are [NaN] ([None]) or an integer, whose
    time values are days since 1970-01-01, whose time zone is UTC and
    whose locale renders a date as [M/D/YYYY].  [StringToNumber] reads
    a decimal integer; [Date.parse] reads the leading [YYYY-MM-DD] of an
    ISO date and rejects every other string. *)
Definition int_to_string (n : option Z) : string :=
  match n with
  | Some z => Z_to_string z
  | None => "NaN"
  end.

Definition all_digits (s : string) : bool :=
  negb (String.eqb s "") && forallb (in_range 48 57) (list_ascii_of_string s).

Definition decimal (s : string) : option Z :=
  if all_digits s then read_digits 10 None s else None.

(** Days since the epoch of a proleptic Gregorian date, and back. *)
Definition days_from_civil (y m d : Z) : Z :=
  let y := if m <=? 2 then y - 1 else y in
  let era := y / 400 in
  let yoe := y - era * 400 in
  let doy := (153 * (if 2 <? m then m - 3 else m + 9) + 2) / 5 + d - 1 in
  let doe := yoe * 365 + yoe / 4 - yoe / 100 + doy in
  era * 146097 + doe - 719468.

Definition civil_from_days (z : Z) : Z * Z * Z :=
  let z := z + 719468 in
  let era := z / 146097 in
  let doe := z - era * 146097 in
  let yoe := (doe - doe / 1460 + doe / 36524 - doe / 146096) / 365 in
  let doy := doe - (365 * yoe + yoe / 4 - yoe / 100) in
  let mp := (5 * doy + 2) / 153 in
  let d := doy - (153 * mp + 2) / 5 + 1 in
  let m := if mp <? 10 then mp + 3 else mp - 9 in
  (if m <=? 2 then yoe + era * 400 + 1 else yoe + era * 400, m, d).

Definition iso_date (s : string) : option Z :=
  match decimal (String.substring 0 4 s), String.substring 4 1 s,
        decimal (String.substring 5 2 s), String.substring 7 1 s,
        decimal (String.substring 8 2 s) with
  | Some y, "-", Some m, "-", Some d =>
      if (1 <=? m) && (m <=? 12) && (1 <=? d) && (d <=? 31)
      then Some (days_from_civil y m d) else None
  | _, _, _, _, _ => None
  end.

(** [TimeClip]: a time value beyond 8.64e15 ms is [NaN]. *)
Definition day_of_ms (n : option Z) : option Z :=
  match n with
  | Some ms => if Z.abs ms <=? 8640000000000000 then Some (ms / 86400000) else None
  | None => None
  end.

Definition us_date (day : Z) : string :=
  let '(y, m, d) := civil_from_days day in
  Z_to_string m ++ "/" ++ Z_to_string d ++ "/" ++ Z_to_string y.

Definition IntEngine : JsEnv :=
  {| number := option Z;
     num_of_Z := Some;
     num_truthy n := match n with Some z => negb (z =? 0) | None => false end;
     num_to_string := int_to_string;
     num_gt_zero n := match n with Some z => 0 <? z | None => false end;
     str_to_number s := decimal (trim s);
     time := Z;
     date_parse := iso_date;
     date_of_number := day_of_ms;
     to_locale_date_string := us_date |}.

(** ** The statements of the specification *)

Section Statements.
Context {E : JsEnv}.

(** A field of a parsed query string or record that is absent or holds
    a string. *)
Definition absent_or_string (v : JsVal) : bool :=
  match v with
  | JUndefined | JStr _ => true
  | _ => false
  end.

Definition string_params (p : SearchParams) : bool :=
  absent_or_string (term p) && absent_or_string (media p)
  && absent_or_string (limit p) && absent_or_string (country p)
  && absent_or_string (entity p) && absent_or_string (explicit p).

(** *** The validator's rules, in the words of the specification *)

(** The term is missing, or empty once trimmed. *)
Definition term_missing (t : JsVal) : Prop :=
  t = JUndefined \/ exists s, t = JStr s /\ trim s = "".

Definition outside_media_types (s : string) : Prop :=
  ~ In s VALID_MEDIA_TYPES.

(** [s] does not parse to an integer in [1,200]. *)
Definition limit_out_of_range (s : string) : Prop :=
  ~ exists n, parseInt s = Some n /\ 1 <= n <= 200.

(** [s] is not two uppercase ASCII letters. *)
Definition not_country_code (s : string) : Prop :=
  ~ exists a b, s = String a (String b EmptyString)
                /\ (65 <= ascii_code a <= 90)%N /\ (65 <= ascii_code b <= 90)%N.

(** A rule on an optional field, as the specification states it: the
    field is present and its string breaks the rule. *)
Definition violated (rule : string -> Prop) (v : JsVal) : Prop :=
  exists s, v = JStr s /\ rule s.

(** The same, for a field that is present and not empty. *)
Definition violated_nonempty (rule : string -> Prop) (v : JsVal) : Prop :=
  exists s, v = JStr s /\ s <> "" /\ rule s.

(** The validator as the specification states it: every violated rule
    has its message in the list, and the result is valid exactly when
    the list is empty. *)
Definition validator_as_stated (p : SearchParams) : Prop :=
  exists r, validateSearchParams p = Ok r
    /\ (term_missing (term p) -> In TERM_ERROR (errors r))
    /\ (violated outside_media_types (media p) -> In MEDIA_ERROR (errors r))
    /\ (violated limit_out_of_range (limit p) -> In LIMIT_ERROR (errors r))
    /\ (violated not_country_code (country p) -> In COUNTRY_ERROR (errors r))
    /\ (isValid r = true <-> errors r = []).

(** *** The normalizer's fields, in the words of the specification *)

(** The artwork URL as the specification states it, for a record whose
    artwork fields are absent or strings (nothing is stated of other
    records). *)
Definition artworkUrl_as_stated (item : gmap string JsVal) (out : JsVal) : Prop :=
  match item !! "artworkUrl100", item !! "artworkUrl60", item !! "artworkUrl30" with
  | Some (JStr s), _, _ => out = JStr (replace_first "100x100" "300x300" s)
  | None, Some (JStr s), _ => out = JStr (replace_first "60x60" "300x300" s)
  | None, None, Some (JStr s) => out = JStr (replace_first "30x30" "300x300" s)
  | None, None, None => out = JNull
  | _, _, _ => True
  end.

(** The artwork URL of the normalized item, as the specification
    states it. *)
Definition normalized_artwork_as_stated (now : number)
    (item : gmap string JsVal) : Prop :=
  exists out a, enhance now (JObj item) = Ok out
    /\ get out "artworkUrl" = Ok a /\ artworkUrl_as_stated item a.

(** The release date of the normalized item, as the specification
    states it: the formatted date when the string parses, [null] when
    it does not. *)
Definition releaseDate_as_stated (now : number)
    (item : gmap string JsVal) : Prop :=
  forall s, item !! "releaseDate" = Some (JStr s) ->
    exists out, enhance now (JObj item) = Ok out
      /\ get out "releaseDate"
         = Ok match date_parse s with
              | Some t => JStr (to_locale_date_string t)
              | None => JNull
              end.

(** The value of a field when it is a string that is not empty. *)
Definition nonempty_string (v : option JsVal) : option string :=
  match v with
  | Some (JStr (String c r)) => Some (String c r)
  | _ => None
  end.

(** The artwork URL of the code: the first of the three fields that is
    a non-empty string, its size token replaced; failing that, the
    field [artworkUrl100] as it is. *)
Definition artworkUrl_first_nonempty (item : gmap string JsVal) : JsVal :=
  match nonempty_string (item !! "artworkUrl100") with
  | Some s => JStr (replace_first "100x100" "300x300" s)
  | None =>
      match nonempty_string (item !! "artworkUrl60") with
      | Some s => JStr (replace_first "60x60" "300x300" s)
      | None =>
          match nonempty_string (item !! "artworkUrl30") with
          | Some s => JStr (replace_first "30x30" "300x300" s)
          | None => default JUndefined (item !! "artworkUrl100")
          end
      end
  end.

Definition nullish_or_string (v : option JsVal) : bool :=
  match v with
  | None | Some JUndefined | Some JNull | Some (JStr _) => true
  | _ => false
  end.

Definition artwork_fields_typed (item : gmap string JsVal) : bool :=
  nullish_or_string (item !! "artworkUrl100")
  && nullish_or_string (item !! "artworkUrl60")
  && nullish_or_string (item !! "artworkUrl30").


(** Values whose conversion to a string cannot throw. *)
Definition primitive (v : option JsVal) : bool :=
  match v with
  | Some (JArr _) | Some (JObj _) => false
  | _ => true
  end.

(** A record that the normalizer handles without an exception. *)
Definition well_typed_record (item : gmap string JsVal) : bool :=
  artwork_fields_typed item
  && primitive (item !! "releaseDate")
  && primitive (item !! "trackPrice")
  && primitive (item !! "collectionPrice").

(** *** The builder *)

(** The effective media type of the code, [params.media || 'all']:
    the supplied media, or ["all"] when media is absent or empty. *)
Definition effective_media (p : SearchParams) : string :=
  match media p with
  | JStr (String c r) => String c r
  | _ => "all"
  end.

(** The string of a field, or [d] when the field is absent or empty. *)
Definition string_or (v : JsVal) (d : string) : string :=
  match v with
  | JStr (String c r) => String c r
  | _ => d
  end.

(** The entity set mapped from a media type. *)
Definition entity_set (m : string) : list string :=
  default [] (MEDIA_ENTITIES !! m).

(** The effective media type as the specification states it: the
    supplied media, or ["all"] when media is absent. *)
Definition effective_media_as_stated (p : SearchParams) : string :=
  match media p with
  | JStr s => s
  | _ => "all"
  end.

(** The names of the parameters in the query string of a URL. *)
Fixpoint split_on (c : ascii) (s : string) : list string :=
  match s with
  | EmptyString => [EmptyString]
  | String a s' =>
      if Ascii.eqb a c then EmptyString :: split_on c s'
      else match split_on c s' with
           | x :: xs => String a x :: xs
           | [] => [String a EmptyString]
           end
  end.

Definition param_names (url : string) : list string :=
  match split_on "?" url with
  | _ :: q :: _ =>
      map (fun kv => hd EmptyString (split_on "=" kv)) (split_on "&" q)
  | _ => []
  end.

(** [occurs c s]: the byte [c] occurs in [s]. *)
Fixpoint occurs (c : ascii) (s : string) : bool :=
  match s with
  | EmptyString => false
  | String a s' => Ascii.eqb a c || occurs c s'
  end.

(** The bytes that delimit the parts of a query string. *)
Definition separator (c : ascii) : Prop :=
  c = "&"%char \/ c = "="%char \/ c = "?"%char.

(** The five parameters that the builder always sends, in order. *)
Definition base_params (p : SearchParams) (t : string) : list (string * string) :=
  [ ("term", trim t);
    ("media", string_or (media p) "all");
    ("limit", string_or (limit p) "50");
    ("country", string_or (country p) "US");
    ("explicit", string_or (explicit p) "Yes") ].

(** The entity parameter, sent when the entity belongs to the entity
    set of the effective media type. *)
Definition entity_param (p : SearchParams) : list (string * string) :=
  match entity p with
  | JStr e =>
      if mem e (entity_set (effective_media p)) then [("entity", e)] else []
  | _ => []
  end.

(** The entity filter as the specification states it. *)
Definition entity_filter_as_stated (p : SearchParams) : Prop :=
  exists url, buildItunesUrl p = Ok url
    /\ (In "entity" (param_names url)
        <-> exists e, entity p = JStr e
                      /\ In e (entity_set (effective_media_as_stated p))).

(** *** The handler *)

(** A connection or timeout failure. *)
Definition timeout_failure (e : JsError) : Prop :=
  err_code e = Some "ECONNABORTED" \/ err_code e = Some "ETIMEDOUT".

Definition responds (res : Response) (s : Z) (error : string) : Prop :=
  status res = s /\ field res "error" = JStr error.

(** The failure mapping of the handler. *)
Definition mapped (e : JsError) (res : Response) : Prop :=
  (timeout_failure e -> responds res 408 "Request Timeout")
  /\ (~ timeout_failure e -> err_status e = Some 403 ->
      responds res 503 "Service Unavailable")
  /\ (~ timeout_failure e ->
      forall s, err_status e = Some s -> 400 <= s < 500 -> s <> 403 ->
      responds res 400 "Bad Request")
  /\ (~ timeout_failure e ->
      (forall s, err_status e = Some s -> s < 400 \/ 500 <= s) ->
      responds res 500 "Search Failed").

(** An exception of the engine itself: no [code], no [response]. *)
Definition plain (e : JsError) : Prop :=
  err_code e = None /\ err_status e = None.

Definition throws_plain {A : Type} (r : Result A) : Prop :=
  forall e, r = Throw e -> plain e.

(** The tests of the validator on a field that is absent or a string. *)
Definition media_rejected (m : JsVal) : bool :=
  truthy m && negb (includes VALID_MEDIA_TYPES m).

Definition limit_string_rejected (l : JsVal) : bool :=
  match l with
  | JStr s => truthy l && limit_rejected (parseInt s)
  | _ => false
  end.

Definition country_string_rejected (c : JsVal) : bool :=
  match c with
  | JStr s => truthy c && negb (test_country_code s)
  | _ => false
  end.

(** The error list of the validator on string fields: which of the
    four messages it holds, in their order. *)
Definition reports (errs : list string) (p : SearchParams) : Prop :=
  (In TERM_ERROR errs <-> term_missing (term p))
  /\ (In MEDIA_ERROR errs <-> violated_nonempty outside_media_types (media p))
  /\ (In LIMIT_ERROR errs <-> violated_nonempty limit_out_of_range (limit p))
  /\ (In COUNTRY_ERROR errs <-> violated_nonempty not_country_code (country p))
  /\ sublist errs [TERM_ERROR; MEDIA_ERROR; LIMIT_ERROR; COUNTRY_ERROR].

End Statements.

(** ** Example inputs *)

Section Examples.
#[local] Existing Instance IntEngine.

Definition no_value : JsVal := JUndefined.

Definition params_of (t m l c e x : JsVal) : SearchParams :=
  {| term := t; media := m; limit := l; country := c; entity := e;
     explicit := x |}.

(** Scenario 1: [{ term: "Adele", media: "music", limit: "5" }] *)
Definition adele_query : gmap string JsVal :=
  list_to_map [ ("term", JStr "Adele"); ("media", JStr "music"); ("limit", JStr "5") ].

Definition adele_url : string :=
  "https://itunes.apple.com/search?term=Adele&media=music&limit=5&country=US&explicit=Yes".

(** Scenario 2: [{ term: "" }] *)
Definition empty_term_query : gmap string JsVal :=
  list_to_map [ ("term", JStr "") ].

(** Scenario 5: entity "podcast" with media "music". *)
Definition podcast_in_music : SearchParams :=
  params_of (JStr "Adele") (JStr "music") no_value no_value (JStr "podcast") no_value.

(** [?term=Adele&media=&entity=movie]: the media is present and empty. *)
Definition empty_media_with_entity : SearchParams :=
  params_of (JStr "Adele") (JStr "") no_value no_value (JStr "movie") no_value.

(** [?term=a&limit=]: the limit is present and empty. *)
Definition empty_limit : SearchParams :=
  params_of (JStr "a") no_value (JStr "") no_value no_value no_value.

(** Every rule broken at once. *)
Definition all_wrong : SearchParams :=
  params_of (JStr "  ") (JStr "games") (JStr "201") (JStr "usa") no_value no_value.

Definition limit_zero : SearchParams :=
  params_of (JStr "Adele") no_value (JStr "0") no_value no_value no_value.

Definition padded_term : SearchParams :=
  params_of (JStr "  Daft Punk ") no_value no_value (JStr "FR") no_value no_value.

(** Scenario 3 *)
Definition scenario_3_record : gmap string JsVal :=
  list_to_map
    [ ("trackId", JNum (Some 42)); ("trackName", JStr "X");
      ("artworkUrl100", JStr "https://is1.mzstatic.com/image/100x100bb.jpg") ].

Definition only_artwork60 : gmap string JsVal :=
  list_to_map [ ("artworkUrl60", JStr "https://is1.mzstatic.com/image/60x60bb.jpg") ].

Definition unparseable_date : gmap string JsVal :=
  list_to_map [ ("trackId", JNum (Some 7)); ("releaseDate", JStr "TBA") ].

(** A free track: [{ trackId: 7, trackPrice: 0 }] *)
Definition free_track : gmap string JsVal :=
  list_to_map [ ("trackId", JNum (Some 7)); ("trackPrice", JNum (Some 0)) ].

Definition one_result : gmap string JsVal :=
  list_to_map
    [ ("resultCount", JNum (Some 1)); ("results", JArr [JObj scenario_3_record]) ].

Definition timeout_error : JsError :=
  {| err_code := Some "ECONNABORTED"; err_status := None;
     err_message := "timeout of 10000ms exceeded" |}.

(** A world whose upstream call times out. *)
Definition timeout_world : World :=
  {| axios_get := fun _ => Throw timeout_error;
     clock := fun _ => Some 1700000000000;
     now_iso := "2023-11-14T22:13:20.000Z";
     responseTime := "10001";
     development := false |}.

End Examples.

(** ** The rest of the search route *)

(** *** What a built URL is made of *)

(** The bytes of a built URL: ASCII letters and digits, the four marks
    that the serializer keeps, [+] and [%] from the encoding, and the
    delimiters of the URL. *)
Definition url_byte (c : ascii) : bool :=
  urlencoded_safe c
  || existsb (Ascii.eqb c) [ "+"; "%"; "&"; "="; "?"; ":"; "/" ]%char.

Definition all_bytes (f : ascii -> bool) (s : string) : bool :=
  forallb f (list_ascii_of_string s).

(** The inverse of the serializer, used to read a query string back:
    [+] is a space, [%XY] the byte with hexadecimal digits [X] and [Y]. *)
Definition hex_value (c : ascii) : N :=
  if in_range 48 57 c then ascii_code c - 48
  else if in_range 97 102 c then ascii_code c - 87
  else ascii_code c - 55.

Fixpoint urldecode (s : string) : string :=
  match s with
  | EmptyString => EmptyString
  | String "+" r => String " " (urldecode r)
  | String "%" (String x (String y r)) =>
      String (ascii_of_N (16 * hex_value x + hex_value y)) (urldecode r)
  | String c r => String c (urldecode r)
  end.

Definition parse_pair (kv : string) : string * string :=
  match split_on "=" kv with
  | k :: v :: _ => (urldecode k, urldecode v)
  | _ => (urldecode kv, EmptyString)
  end.

Definition parse_query (q : string) : list (string * string) :=
  map parse_pair (split_on "&" q).

(** The query string of a URL: what follows its first [?]. *)
Definition query_of (url : string) : string :=
  match split_on "?" url with
  | _ :: q :: _ => q
  | _ => EmptyString
  end.

(** *** The upstream calls of a request *)

(** The calls [axios.get(url, {timeout})] among the events, in order. *)
Definition upstream_calls (evs : list Event) : list (string * Z) :=
  omap (fun ev => match ev with
                  | AxiosGet url timeout => Some (url, timeout)
                  | _ => None
                  end) evs.


(** *** Comparisons *)

(** [num_equal] is [Number::equal], what [===] is on two numbers;
    [time_less] is [<] on two finite time values. *)
Class JsNumbers {E : JsEnv} := {
  num_equal : number -> number -> bool;
  time_less : time -> time -> bool;
}.

(** What every engine satisfies: [===] is symmetric, [0 === 0] holds,
    and a truthy number is not [0]. *)
Definition sound_numbers {E : JsEnv} {N : JsNumbers} : Prop :=
  (forall a b, num_equal a b = num_equal b a)
  /\ num_equal (num_of_Z 0) (num_of_Z 0) = true
  /\ (forall n, num_truthy n = true -> num_equal n (num_of_Z 0) = false).

Section Lookup.
Context {E : JsEnv} {N : JsNumbers}.

(** [a === b] where one side at least is a primitive (for two objects
    or arrays [===] compares references, which values do not record:
    [false] stands for two distinct references). *)
Definition strict_equal (a b : JsVal) : bool :=
  match a, b with
  | JUndefined, JUndefined => true
  | JNull, JNull => true
  | JBool x, JBool y => Bool.eqb x y
  | JNum x, JNum y => num_equal x y
  | JStr x, JStr y => String.eqb x y
  | _, _ => false
  end.

Definition ITUNES_LOOKUP_ENDPOINT : string := ITUNES_BASE_URL ++ "/lookup".

(** [/^\d+$/.test(s)] *)
Definition test_digits (s : string) : bool :=
  match s with
  | EmptyString => false
  | _ => all_bytes (in_range 48 57) s
  end.

Definition lookup_url (itemId : string) : string :=
  ITUNES_LOOKUP_ENDPOINT ++ "?id=" ++ itemId.

Definition lookup_success (w : World) (processedData : JsVal) : Response :=
  {| status := 200;
     body := object
       [ ("success", JBool true);
         ("data", processedData);
         ("metadata",
           object [ ("responseTime", JStr (responseTime w ++ "ms"));
                    ("lookedUpAt", JStr (now_iso w));
                    ("apiVersion", JStr "1.0") ]) ] |}.

(** The body of [try] in [router.get('/lookup/:itemId')]; [itemId] is
    [req.params.itemId]. *)
Definition lookup_try (w : World) (itemId : string) : Eff Response :=
  if String.eqb itemId "" || negb (test_digits itemId) then
    eff_ret (failure 400 "Invalid ID" "Item ID must be a valid number")
  else
    let lookupUrl := lookup_url itemId in
    emit (LogInfo "iTunes API lookup request") ;;;
    emit (AxiosGet lookupUrl 10000) ;;;
    data <~ lift (axios_get w lookupUrl) ;;
    processedData <~ lift (processItunesResponse (clock w) (now_iso w) data) ;;
    resultCount <~ lift (get processedData "resultCount") ;;
    if strict_equal resultCount (JNum (num_of_Z 0)) then
      eff_ret (failure 404 "Not Found" ("No item found with ID: " ++ itemId))
    else
      emit (LogInfo "iTunes API lookup completed") ;;;
      eff_ret (lookup_success w processedData).

Definition lookup_handler (w : World) (itemId : string) : list Event * Response :=
  match lookup_try w itemId with
  | (evs, Ok res) => (evs, res)
  | (evs, Throw error) =>
      ((evs ++ [LogError "iTunes API lookup failed"])%list,
       failure 500 "Lookup Failed" "Unable to lookup item. Please try again later.")
  end.

(** *** The middleware in front of the routes *)

(** The outcome of [jwt.verify(token, process.env.JWT_SECRET)]: the
    decoded payload, or the [name] and [message] of the error thrown. *)
Inductive Verified : Type :=
| Decoded (payload : JsVal)
| Refused (name message : string).

(** What guards a route: the verification of tokens and whether the
    rate limiter lets this request through. *)
Record Guards := {
  jwt_verify : string -> Verified;
  limiter_allows : bool;
}.

Definition denied (error message : string) : Response := failure 401 error message.

(** [authHeader && authHeader.split(' ')[1]], when it is truthy. *)
Definition bearer_token (authorization : option string) : option string :=
  match authorization with
  | Some h =>
      match split_on " " h with
      | _ :: String c r :: _ => Some (String c r)
      | _ => None
      end
  | None => None
  end.

(** [authenticateToken]: a response, or [next()] with [req.user]. *)
Definition authenticateToken (g : Guards) (authorization : option string)
  : list Event * (Response + JsVal) :=
  match bearer_token authorization with
  | None =>
      ([LogWarn "Access attempt without token"],
       inl (denied "Access Denied"
              "No token provided. Please include a valid JWT token in the Authorization header."))
  | Some token =>
      match jwt_verify g token with
      | Decoded decoded =>
          match get decoded "userId" with
          | Ok _ => ([LogInfo "Token verified successfully"], inr decoded)
          | Throw _ =>
              ([LogError "Token verification failed"],
               inl (denied "Authentication Failed" "Token verification failed."))
          end
      | Refused name _ =>
          ([LogError "Token verification failed"],
           inl (if String.eqb name "TokenExpiredError" then
                  denied "Token Expired"
                    "Your session has expired. Please request a new token."
                else if String.eqb name "JsonWebTokenError" then
                  denied "Invalid Token"
                    "The provided token is invalid or malformed."
                else denied "Authentication Failed" "Token verification failed."))
      end
  end.

(** The answer of [searchLimiter] to a request over the limit. *)
Definition rate_limited : Response :=
  failure 429 "Search rate limit exceeded"
    "Too many search requests. iTunes API allows maximum 20 calls per minute.".

(** [router.get('/', authenticateToken, searchLimiter, handler)] *)
Definition search_route (g : Guards) (w : World) (authorization : option string)
    (query : gmap string JsVal) : list Event * Response :=
  match authenticateToken g authorization with
  | (evs, inl res) => (evs, res)
  | (evs, inr _) =>
      if limiter_allows g then
        let '(evs', res) := search_handler w query in ((evs ++ evs')%list, res)
      else (evs, rate_limited)
  end.

(** [router.get('/lookup/:itemId', authenticateToken, searchLimiter, handler)] *)
Definition lookup_route (g : Guards) (w : World) (authorization : option string)
    (itemId : string) : list Event * Response :=
  match authenticateToken g authorization with
  | (evs, inl res) => (evs, res)
  | (evs, inr _) =>
      if limiter_allows g then
        let '(evs', res) := lookup_handler w itemId in ((evs ++ evs')%list, res)
      else (evs, rate_limited)
  end.

End Lookup.

(** The numbers of the small engine. *)
Definition int_equal (a b : option Z) : bool :=
  match a, b with
  | Some x, Some y => x =? y
  | _, _ => false
  end.

Definition IntNumbers : @JsNumbers IntEngine :=
  @Build_JsNumbers IntEngine int_equal Z.ltb.


(** ** The client *)

(** *** [services/api.js] *)

(** The bytes that [encodeURIComponent] keeps: ASCII letters and
    digits and [- _ . ! ~ * ' ( )]; every other byte of the UTF-8 form
    is written [%XY]. *)
Definition uri_unreserved (c : ascii) : bool :=
  in_range 48 57 c || in_range 65 90 c || in_range 97 122 c
  || existsb (Ascii.eqb c) [ "-"; "_"; "."; "!"; "~"; "*"; "'"; "("; ")" ]%char.

Definition encodeURIComponent_byte (c : ascii) : string :=
  if uri_unreserved c then String c EmptyString
  else String "%" (String (hex_digit (ascii_code c / 16))
                     (String (hex_digit (ascii_code c mod 16)) EmptyString)).

Fixpoint encodeURIComponent (s : string) : string :=
  match s with
  | EmptyString => EmptyString
  | String c s' => encodeURIComponent_byte c ++ encodeURIComponent s'
  end.

(** Bytes that are ASCII and no white space. *)
Definition solid (c : ascii) : bool :=
  (ascii_code c <? 128)%N && negb (in_range 9 13 c) && negb (ascii_code c =? 32)%N.

(** The values of the media selector of the search bar. *)
Definition MEDIA_TYPES : list string :=
  [ "all"; "music"; "movie"; "podcast"; "audiobook"; "shortFilm"; "tvShow";
    "software"; "ebook" ].

Section Client.
Context {E : JsEnv} {N : JsNumbers}.

(** The [params] that [searchItunes(term, media, limit)] passes to
    [api.get('/search', { params })]; an [undefined] media or limit
    takes its default ['all'] or [50]. *)
Definition searchItunes_params (term : string) (media limit : JsVal)
  : gmap string JsVal :=
  let media := match media with JUndefined => JStr "all" | _ => media end in
  let limit := match limit with JUndefined => JNum (num_of_Z 50) | _ => limit end in
  let params : gmap string JsVal :=
    <["limit" := limit]> (<["term" := JStr (encodeURIComponent term)]> ∅) in
  if truthy media && negb (strict_equal media (JStr "all"))
  then <["media" := media]> params
  else params.

(** The query that the route parses out of the request line: the
    parameters that the client passed, each primitive as its string
    (the serializing of the client and the parsing of the server are
    inverse on strings); a parameter that is [null] or [undefined] is
    not sent.  An array or an object, which this client never passes,
    stands for itself. *)
Definition as_received (params : gmap string JsVal) : gmap string JsVal :=
  omap (fun v => match v with
                 | JUndefined | JNull => None
                 | JBool b => Some (JStr (if b then "true" else "false"))
                 | JNum n => Some (JStr (num_to_string n))
                 | JStr s => Some (JStr s)
                 | JArr _ | JObj _ => Some v
                 end) params.

(** *** [App.js] *)

(** The state of [App] that a search touches. *)
Record AppState := {
  searchResults : JsVal;
  loading : bool;
  error : JsVal;
  searchTerm : string;
  mediaType : JsVal;
}.

(** How [await searchItunes(term, media)] ends: with the body of a 2xx
    response as [response.data], or with an error whose
    [error.response?.data] is the body of the response, if there was
    one. *)
Inductive Reply : Type :=
| Resolved (data : JsVal)
| Rejected (response_data : option JsVal).

(** The reply to a request that the search route answered with [res]:
    a status in [200,300) resolves, any other rejects; [response.data]
    is the body that was sent (parsed from its JSON form, which has
    the same fields). *)
Definition reply_of (res : Response) : Reply :=
  if (200 <=? status res) && (status res <? 300)
  then Resolved (body res)
  else Rejected (Some (body res)).

(** [v.length === 0] *)
Definition length_is_zero (v : JsVal) : Result bool :=
  match v with
  | JUndefined | JNull =>
      Throw (TypeError "Cannot read properties of undefined (reading 'length')")
  | JArr xs => Ok (match xs with [] => true | _ => false end)
  | JStr s => Ok (String.eqb s "")
  | JObj props =>
      Ok (strict_equal (default JUndefined (props !! "length")) (JNum (num_of_Z 0)))
  | _ => Ok false
  end.

(** [error.response?.data?.message || 'Search failed. Please try again.'] *)
Definition shown_message (response_data : option JsVal) : JsVal :=
  let message :=
    match response_data with
    | Some (JObj props) => default JUndefined (props !! "message")
    | _ => JUndefined
    end in
  js_or message (JStr "Search failed. Please try again.").

(** The body of [try] in [handleSearch], from the response on: the
    state it leaves, or the error it throws. *)
Definition show_results (st : AppState) (data : JsVal) : Result AppState :=
  results <- get data "results" ;;
  let st :=
    {| searchResults := js_or results (JArr []); loading := loading st;
       error := error st; searchTerm := searchTerm st;
       mediaType := mediaType st |} in
  empty <- length_is_zero results ;;
  if empty
  then Ok {| searchResults := searchResults st; loading := loading st;
             error := JStr "No results found. Try a different search term.";
             searchTerm := searchTerm st; mediaType := mediaType st |}
  else Ok st.

(** The [catch] of [handleSearch]; [response_data] is
    [error.response?.data], absent for an error thrown by the body of
    [try] itself. *)
Definition show_failure (st : AppState) (response_data : option JsVal) : AppState :=
  {| searchResults := JArr []; loading := loading st;
     error := shown_message response_data;
     searchTerm := searchTerm st; mediaType := mediaType st |}.

(** [handleSearch(term, media)]; [reply] is how the request ends if it
    is made. *)
Definition handleSearch (st : AppState) (term : string) (media : JsVal)
    (reply : Reply) : AppState :=
  if String.eqb (trim term) "" then
    {| searchResults := searchResults st; loading := loading st;
       error := JStr "Please enter a search term";
       searchTerm := searchTerm st; mediaType := mediaType st |}
  else
    let st :=
      {| searchResults := searchResults st; loading := true; error := JNull;
         searchTerm := term; mediaType := media |} in
    let st :=
      match reply with
      | Rejected response_data => show_failure st response_data
      | Resolved data =>
          match show_results st data with
          | Ok st' => st'
          | Throw _ => show_failure st None
          end
      end in
    {| searchResults := searchResults st; loading := false; error := error st;
       searchTerm := searchTerm st; mediaType := mediaType st |}.

(** The favourites: a list of items, each an object. *)
Definition uniqueId (item : gmap string JsVal) : JsVal :=
  default JUndefined (item !! "uniqueId").

Definition isFavorite (favorites : list (gmap string JsVal)) (itemId : JsVal) : bool :=
  existsb (fun fav => strict_equal (uniqueId fav) itemId) favorites.

Definition addToFavorites (favorites : list (gmap string JsVal))
    (item : gmap string JsVal) : list (gmap string JsVal) :=
  if existsb (fun fav => strict_equal (uniqueId fav) (uniqueId item)) favorites
  then favorites
  else (favorites ++ [item])%list.

Definition removeFromFavorites (favorites : list (gmap string JsVal))
    (itemId : JsVal) : list (gmap string JsVal) :=
  List.filter (fun fav => negb (strict_equal (uniqueId fav) itemId)) favorites.

(** [handleClearAll] once confirmed:
    [favorites.forEach(item => onRemoveFavorite(item.uniqueId))], each
    removal applied to the state that the one before left. *)
Definition handleClearAll (favorites : list (gmap string JsVal))
  : list (gmap string JsVal) :=
  fold_left (fun prev item => removeFromFavorites prev (uniqueId item))
            favorites favorites.

(** No two favourites have the same id. *)
Definition distinct_ids (favorites : list (gmap string JsVal)) : Prop :=
  forall i j a b, favorites !! i = Some a -> favorites !! j = Some b ->
    i <> j -> strict_equal (uniqueId a) (uniqueId b) = false.

End Client.


(** ** [utils/logger.js] *)

Inductive Level : Type := ERROR | WARN | INFO | DEBUG.

Definition LOG_LEVELS (level : Level) : Z :=
  match level with ERROR => 0 | WARN => 1 | INFO => 2 | DEBUG => 3 end.

Definition level_of_name (name : string) : option Level :=
  if String.eqb name "ERROR" then Some ERROR
  else if String.eqb name "WARN" then Some WARN
  else if String.eqb name "INFO" then Some INFO
  else if String.eqb name "DEBUG" then Some DEBUG
  else None.

(** [LOG_LEVELS[upper] ?? (NODE_ENV === 'production' ? LOG_LEVELS.INFO
    : LOG_LEVELS.DEBUG)], where [upper] is
    [process.env.LOG_LEVEL?.toUpperCase()].  A name that
    [Object.prototype] defines yields what it holds there, which is
    not [null] or [undefined] and no number: [None] stands for it. *)
Definition CURRENT_LOG_LEVEL (upper NODE_ENV : option string) : option Z :=
  let fallback :=
    if match NODE_ENV with Some e => String.eqb e "production" | None => false end
    then LOG_LEVELS INFO else LOG_LEVELS DEBUG in
  match upper with
  | None => Some fallback
  | Some name =>
      match level_of_name name with
      | Some level => Some (LOG_LEVELS level)
      | None => if mem name OBJECT_PROTOTYPE_KEYS then None else Some fallback
      end
  end.

(** What the logger does to its surroundings: [console.log],
    [console.error], [fs.appendFileSync] and [fs.unlinkSync] on a file
    of the directory [logs]. *)
Inductive Output : Type :=
| ConsoleLog (level : Level) (message : string)
| ConsoleError (text : string)
| Append (file line : string)
| Unlink (file : string).

(** The surroundings of the logger: the environment variable, the
    threshold, the day [new Date().toISOString().split('T')[0]], the
    string that [formatLog] returns for a level and a message (with no
    data), and whether appending to a file or unlinking it succeeds. *)
Record LogEnv := {
  NODE_ENV : option string;
  threshold : option Z;
  today : string;
  formatLog : Level -> string -> string;
  append_succeeds : string -> bool;
  unlink_succeeds : string -> bool;
}.

Definition env_is (env : LogEnv) (name : string) : bool :=
  match NODE_ENV env with
  | Some e => String.eqb e name
  | None => false
  end.

Definition newline : string := String (ascii_of_N 10) EmptyString.

(** [writeToFile]: what it appended, and whether it returned ([true])
    or threw. *)
Definition writeToFile (env : LogEnv) (level : Level) (formattedLog : string)
  : list Output * bool :=
  if env_is env "test" then ([], true)
  else
    let logFile := today env ++ ".log" in
    let errorLogFile := today env ++ "-error.log" in
    if negb (append_succeeds env logFile) then ([], false)
    else
      let main := [Append logFile (formattedLog ++ newline)] in
      match level with
      | ERROR =>
          if append_succeeds env errorLogFile
          then ((main ++ [Append errorLogFile (formattedLog ++ newline)])%list, true)
          else (main, false)
      | _ => (main, true)
      end.

(** [levelValue > CURRENT_LOG_LEVEL] *)
Definition filtered (env : LogEnv) (level : Level) : bool :=
  match threshold env with
  | Some current => current <? LOG_LEVELS level
  | None => false
  end.

(** [log(level, message)] for a string [message] *)
Definition log (env : LogEnv) (level : Level) (message : string) : list Output :=
  if filtered env level then []
  else
    let formattedLog := formatLog env level message in
    let shown :=
      if negb (env_is env "production") then [ConsoleLog level message] else [] in
    let '(written, returned) := writeToFile env level formattedLog in
    (shown ++ written
     ++ (if returned then [] else [ConsoleError "Failed to write log to file:"]))%list.

(** [file.split('.')[0].split('-')[0]] *)
Definition fileDate (file : string) : string :=
  hd EmptyString (split_on "-" (hd EmptyString (split_on "." file))).

Section Cleanup.
Context {E : JsEnv} {N : JsNumbers}.

(** [fileDate && new Date(fileDate) < thirtyDaysAgo] *)
Definition expired (thirtyDaysAgo : time) (file : string) : bool :=
  negb (String.eqb (fileDate file) "")
  && match date_parse (fileDate file) with
     | Some t => time_less t thirtyDaysAgo
     | None => false
     end.

(** The loop of [cleanup] over the names that [readdirSync] returned;
    a failing [unlinkSync] ends it in the [catch]. *)
Fixpoint cleanup (env : LogEnv) (thirtyDaysAgo : time) (files : list string)
  : list Output :=
  match files with
  | [] => []
  | file :: rest =>
      if expired thirtyDaysAgo file then
        if unlink_succeeds env file then
          (Unlink file :: log env INFO ("Deleted old log file: " ++ file)
           ++ cleanup env thirtyDaysAgo rest)%list
        else [ConsoleError "Failed to cleanup log files:"]
      else cleanup env thirtyDaysAgo rest
  end.

(** The names of the files that [cleanup] deleted. *)
Definition deleted (outs : list Output) : list string :=
  omap (fun o => match o with Unlink f => Some f | _ => None end) outs.

End Cleanup.


(** ** More examples *)

Section MoreExamples.
#[local] Existing Instance IntEngine.
#[local] Existing Instance IntNumbers.

(** A term with a non-ASCII letter, spaces and an ampersand. *)
Definition accented_term : SearchParams :=
  params_of (JStr "Beyoncé & Jay-Z") no_value no_value no_value no_value no_value.

Definition accented_url : string :=
  "https://itunes.apple.com/search?term=Beyonc%C3%A9+%26+Jay-Z&media=all&limit=50&country=US&explicit=Yes".

(** [?term=Adele&limit=5abc] *)
Definition limit_5abc : SearchParams :=
  params_of (JStr "Adele") no_value (JStr "5abc") no_value no_value no_value.

(** [?term=Adele&country[]=GB]: the country is an array. *)
Definition country_array : SearchParams :=
  params_of (JStr "Adele") no_value no_value (JArr [JStr "GB"]) no_value no_value.

Definition server_failure : JsError :=
  {| err_code := None; err_status := Some 500;
     err_message := "Request failed with status code 500" |}.

(** A development server whose upstream call fails with a 500. *)
Definition development_world : World :=
  {| axios_get := fun _ => Throw server_failure;
     clock := fun _ => Some 1700000000000;
     now_iso := "2023-11-14T22:13:20.000Z";
     responseTime := "12";
     development := true |}.

(** A world whose upstream call returns one result. *)
Definition answering_world : World :=
  {| axios_get := fun _ => Ok (JObj one_result);
     clock := fun _ => Some 1700000000000;
     now_iso := "2023-11-14T22:13:20.000Z";
     responseTime := "12";
     development := false |}.

(** Upstream bodies: [{ results: "none" }], a result without a count,
    and the answer to a lookup that finds nothing. *)
Definition results_not_array : gmap string JsVal :=
  list_to_map [ ("results", JStr "none") ].

Definition uncounted_results : gmap string JsVal :=
  list_to_map [ ("results", JArr [JObj scenario_3_record]) ].



(** Guards that accept the one token [good]. *)
Definition one_token_guards : Guards :=
  {| jwt_verify := fun token =>
       if String.eqb token "good"
       then Decoded (object [ ("userId", JStr "u1") ])
       else Refused "JsonWebTokenError" "jwt malformed";
     limiter_allows := true |}.

(** The state of [App] when it is mounted. *)
Definition initial_state : AppState :=
  {| searchResults := JArr []; loading := false; error := JNull;
     searchTerm := ""; mediaType := JStr "all" |}.

Definition fav42 : gmap string JsVal :=
  list_to_map [ ("uniqueId", JNum (Some 42)); ("trackName", JStr "X") ].

Definition fav7 : gmap string JsVal :=
  list_to_map [ ("uniqueId", JNum (Some 7)); ("trackName", JStr "Y") ].

(** A production server on 2025-02-14 whose files can be written. *)
Definition production_env : LogEnv :=
  {| NODE_ENV := Some "production";
     threshold := Some 2;
     today := "2025-02-14";
     formatLog := fun _ message => message;
     append_succeeds := fun _ => true;
     unlink_succeeds := fun _ => true |}.

(** 2025-01-15, in days since 1970-01-01. *)
Definition january_15 : Z := 20103.

Definition log_files : list string := [ "2025-02-14.log"; "2025-01-01.log" ].

End MoreExamples.

(** ** Proofs *)

Section Proofs.
Context {E : JsEnv}.

(** *** Exceptions of the engine carry no [code] and no [response] *)

Lemma throws_plain_Ok {A : Type} (a : A) : throws_plain (Ok a).
Proof. intros e H. discriminate H. Qed.

Lemma throws_plain_TypeError {A : Type} (msg : string) :
  throws_plain (@Throw A (TypeError msg)).
Proof. intros e H. injection H as <-. split; reflexivity. Qed.

Lemma throws_plain_bind {A B : Type} (r : Result A) (k : A -> Result B) :
  throws_plain r -> (forall a, throws_plain (k a)) -> throws_plain (bind r k).
Proof.
  intros Hr Hk e. destruct r as [a|e']; simpl.
  - apply Hk.
  - intros H. apply Hr. injection H as ->. reflexivity.
Qed.

Lemma throws_plain_if {A : Type} (c : bool) (r1 r2 : Result A) :
  throws_plain r1 -> throws_plain r2 -> throws_plain (if c then r1 else r2).
Proof. destruct c; auto. Qed.

Create HintDb plain.
#[local] Hint Resolve throws_plain_Ok throws_plain_TypeError : plain.

Lemma JsVal_array_ind (P : JsVal -> Prop) :
  P JUndefined -> P JNull -> (forall b, P (JBool b)) -> (forall n, P (JNum n)) ->
  (forall s, P (JStr s)) -> (forall xs, Forall P xs -> P (JArr xs)) ->
  (forall props, P (JObj props)) -> forall v, P v.
Proof.
  intros Hu Hn Hb Hnum Hs Ha Ho.
  fix IH 1. intros [| |b|n|s|xs|props].
  - exact Hu.
  - exact Hn.
  - apply Hb.
  - apply Hnum.
  - apply Hs.
  - apply Ha. induction xs as [|x xs IHxs]; constructor; [apply IH | exact IHxs].
  - apply Ho.
Qed.

Lemma to_string_plain (v : JsVal) : throws_plain (to_string v).
Proof.
  induction v as [| |b|n|s|xs IH|props] using JsVal_array_ind;
    simpl; auto with plain.
  - destruct b; auto with plain.
  - induction IH as [|x xs Hx _ IHxs]; auto with plain.
    apply throws_plain_bind.
    + destruct (nullish x); auto with plain.
    + intros s. destruct xs; auto with plain.
      apply throws_plain_bind; [exact IHxs | auto with plain].
  - destruct (props !! "toString"); auto with plain.
Qed.

Lemma get_plain (v : JsVal) (k : string) : throws_plain (get v k).
Proof. destruct v; simpl; auto with plain. Qed.

Lemma opt_replace_plain (v : JsVal) (pat rep : string) :
  throws_plain (opt_replace v pat rep).
Proof. destruct v; simpl; auto with plain. Qed.

Lemma new_Date_plain (v : JsVal) : throws_plain (new_Date v).
Proof.
  destruct v; unfold new_Date; auto with plain;
    (apply throws_plain_bind; [apply to_string_plain | auto with plain]).
Qed.

Lemma gt_zero_plain (v : JsVal) : throws_plain (gt_zero v).
Proof.
  destruct v; unfold gt_zero; auto with plain;
    (apply throws_plain_bind; [apply to_string_plain | auto with plain]).
Qed.

#[local] Hint Resolve to_string_plain get_plain opt_replace_plain new_Date_plain
  gt_zero_plain : plain.

Ltac plain_steps :=
  repeat first
    [ progress auto with plain
    | apply throws_plain_bind; [ | intros ? ]
    | apply throws_plain_if ].

Lemma or_else_plain (r k : Result JsVal) :
  throws_plain r -> throws_plain k -> throws_plain (or_else r k).
Proof. intros Hr Hk. unfold or_else. plain_steps. Qed.

Lemma enhance_plain (now : number) (item : JsVal) : throws_plain (enhance now item).
Proof.
  unfold enhance, artworkUrl_of, releaseDate_of, formattedPrice_of, mediaType_of,
    primaryGenre_of, uniqueId_of.
  repeat first
    [ progress auto with plain
    | apply or_else_plain
    | apply throws_plain_bind; [ | intros ? ]
    | apply throws_plain_if ].
Qed.

Lemma map_enhance_plain (c : nat -> number) (l : list JsVal) :
  forall i, throws_plain (map_enhance c i l).
Proof.
  induction l as [|x l IH]; intros i; simpl; auto with plain.
  apply throws_plain_bind; [apply enhance_plain | intros y].
  apply throws_plain_bind; [apply IH | auto with plain].
Qed.

Lemma processItunesResponse_plain (c : nat -> number) (iso : string) (data : JsVal) :
  throws_plain (processItunesResponse c iso data).
Proof.
  unfold processItunesResponse.
  apply throws_plain_bind; [auto with plain | intros r].
  apply throws_plain_bind.
  - destruct (js_or r (JArr [])); auto with plain. apply map_enhance_plain.
  - intros xs. plain_steps.
Qed.

(** *** The [catch] block *)

Lemma code_is_true (e : JsError) (c : string) :
  code_is e c = true <-> err_code e = Some c.
Proof.
  unfold code_is. destruct (err_code e) as [c'|].
  - rewrite String.eqb_eq. split; congruence.
  - split; discriminate.
Qed.

Lemma timeout_failure_decide (e : JsError) :
  code_is e "ECONNABORTED" || code_is e "ETIMEDOUT" = true <-> timeout_failure e.
Proof.
  unfold timeout_failure. rewrite orb_true_iff, !code_is_true. reflexivity.
Qed.

Lemma not_timeout_failure (e : JsError) :
  ~ timeout_failure e ->
  code_is e "ECONNABORTED" || code_is e "ETIMEDOUT" = false.
Proof.
  intros Hnt.
  destruct (code_is e "ECONNABORTED" || code_is e "ETIMEDOUT") eqn:Ht;
    [|reflexivity].
  apply timeout_failure_decide in Ht. contradiction.
Qed.

Lemma error_response_mapped (dev : bool) (e : JsError) :
  mapped e (error_response dev e).
Proof.
  unfold mapped, responds. split; [|split; [|split]].
  - intros Ht. apply timeout_failure_decide in Ht.
    unfold error_response. rewrite Ht. split; reflexivity.
  - intros Hnt Hs. unfold error_response.
    rewrite (not_timeout_failure e Hnt), Hs. split; reflexivity.
  - intros Hnt s Hs Hr Hne. unfold error_response.
    rewrite (not_timeout_failure e Hnt), Hs.
    replace (s =? 403) with false by (symmetry; apply Z.eqb_neq; exact Hne).
    replace ((400 <=? s) && (s <? 500)) with true by lia.
    split; reflexivity.
  - intros Hnt Hall. unfold error_response.
    rewrite (not_timeout_failure e Hnt).
    destruct (err_status e) as [s|] eqn:Hs.
    + specialize (Hall s eq_refl).
      replace (s =? 403) with false by lia.
      replace ((400 <=? s) && (s <? 500)) with false by lia.
      destruct dev; split; reflexivity.
    + destruct dev; split; reflexivity.
Qed.

Lemma plain_not_timeout (e : JsError) : plain e -> ~ timeout_failure e.
Proof. intros [Hc _] [H|H]; congruence. Qed.

Lemma plain_responds_500 (dev : bool) (e : JsError) :
  plain e -> responds (error_response dev e) 500 "Search Failed".
Proof.
  intros Hp. destruct (error_response_mapped dev e) as (_ & _ & _ & H).
  apply H; [apply plain_not_timeout, Hp |].
  intros s Hs. destruct Hp as [_ Hp]. congruence.
Qed.

(** *** The [try] block *)

Lemma search_try_invalid (w : World) (query : gmap string JsVal) (v : Validation) :
  validateSearchParams (searchParams_of query) = Ok v -> isValid v = false ->
  search_try w query
  = ([LogWarn "Invalid search parameters"], Ok (invalid_response v)).
Proof.
  intros Hv Hi. unfold search_try. rewrite Hv. simpl. rewrite Hi. reflexivity.
Qed.

Lemma search_try_valid (w : World) (query : gmap string JsVal) (v : Validation)
    (url : string) :
  validateSearchParams (searchParams_of query) = Ok v -> isValid v = true ->
  buildItunesUrl (searchParams_of query) = Ok url ->
  search_try w query
  = let sent := [LogInfo "iTunes API search request"; AxiosGet url 10000] in
    match axios_get w url with
    | Throw e => (sent, Throw e)
    | Ok data =>
        match processItunesResponse (clock w) (now_iso w) data with
        | Throw e => (sent, Throw e)
        | Ok processed =>
            ((sent ++ [LogInfo "iTunes API search completed"])%list,
             success_response w (searchParams_of query) processed)
        end
    end.
Proof.
  intros Hv Hi Hu. unfold search_try. rewrite Hv. simpl. rewrite Hi, Hu. simpl.
  destruct (axios_get w url) as [data|e]; simpl; [|reflexivity].
  destruct (processItunesResponse (clock w) (now_iso w) data) as [pd|e]; simpl;
    [|reflexivity].
  destruct (success_response w (searchParams_of query) pd); reflexivity.
Qed.

Lemma search_handler_caught (w : World) (query : gmap string JsVal)
    (evs : list Event) (e : JsError) :
  search_try w query = (evs, Throw e) ->
  search_handler w query
  = ((evs ++ [LogError "iTunes API search failed"])%list,
     error_response (development w) e).
Proof. intros H. unfold search_handler. rewrite H. reflexivity. Qed.

(** C1: each failure of the upstream call is mapped to one response:
    a timeout code to 408 "Request Timeout"; otherwise an upstream
    status 403 to 503 "Service Unavailable"; otherwise another upstream
    status in [400,500) to 400 "Bad Request"; anything else to 500
    "Search Failed", as is any exception of the normalizer.  The call
    was made once and is not repeated. *)
Theorem failure_mapping (w : World) (query : gmap string JsVal) (v : Validation)
    (url : string) :
  validateSearchParams (searchParams_of query) = Ok v -> isValid v = true ->
  buildItunesUrl (searchParams_of query) = Ok url ->
  (forall e, axios_get w url = Throw e ->
     mapped e (snd (search_handler w query))
     /\ fst (search_handler w query)
        = [ LogInfo "iTunes API search request"; AxiosGet url 10000;
            LogError "iTunes API search failed" ])
  /\ (forall data e, axios_get w url = Ok data ->
        processItunesResponse (clock w) (now_iso w) data = Throw e ->
        responds (snd (search_handler w query)) 500 "Search Failed").
Proof.
  intros Hv Hi Hu.
  pose proof (search_try_valid w query v url Hv Hi Hu) as Htry. simpl in Htry.
  split.
  - intros e He. rewrite He in Htry.
    rewrite (search_handler_caught _ _ _ _ Htry).
    split; [apply error_response_mapped | reflexivity].
  - intros data e Hd Hp. rewrite Hd, Hp in Htry.
    rewrite (search_handler_caught _ _ _ _ Htry).
    apply plain_responds_500. eapply processItunesResponse_plain. exact Hp.
Qed.

(** C9: a request whose parameters fail validation is answered 400
    with the whole error list and no upstream call is made; whenever
    the upstream call is made, validation has succeeded. *)
Theorem invalid_never_reaches_upstream (w : World) (query : gmap string JsVal) :
  (forall v, validateSearchParams (searchParams_of query) = Ok v ->
     isValid v = false ->
     status (snd (search_handler w query)) = 400
     /\ field (snd (search_handler w query)) "errors" = strings (errors v)
     /\ calls_upstream (fst (search_handler w query)) = false)
  /\ (calls_upstream (fst (search_handler w query)) = true ->
      exists v, validateSearchParams (searchParams_of query) = Ok v
                /\ isValid v = true).
Proof.
  split.
  - intros v Hv Hi. unfold search_handler.
    rewrite (search_try_invalid w query v Hv Hi). repeat split.
  - intros Hcall.
    destruct (validateSearchParams (searchParams_of query)) as [v|e] eqn:Hv.
    + destruct (isValid v) eqn:Hi; [eauto|].
      unfold search_handler in Hcall.
      rewrite (search_try_invalid w query v Hv Hi) in Hcall. discriminate.
    + unfold search_handler, search_try in Hcall. rewrite Hv in Hcall.
      discriminate.
Qed.

(** *** The validator *)

Lemma mem_In (s : string) (l : list string) : mem s l = true <-> In s l.
Proof.
  unfold mem. rewrite existsb_exists. split.
  - intros (x & Hx & Heq). apply String.eqb_eq in Heq. subst x. exact Hx.
  - intros H. exists s. split; [exact H | apply String.eqb_refl].
Qed.

Lemma length_zero (s : string) : (String.length s =? 0)%nat = true <-> s = "".
Proof. destruct s; simpl; split; intros H; congruence. Qed.

Lemma truthy_JStr (s : string) : truthy (JStr s) = true <-> s <> "".
Proof.
  simpl. rewrite negb_true_iff. split.
  - intros H ->. discriminate.
  - intros H. apply String.eqb_neq. exact H.
Qed.

Lemma term_rejected_missing (t : JsVal) :
  absent_or_string t = true -> (term_rejected t = true <-> term_missing t).
Proof.
  unfold term_missing. destruct t as [| |b|n|s|xs|props]; try discriminate; intros _.
  - split; [left; reflexivity | reflexivity].
  - unfold term_rejected. rewrite orb_true_iff, negb_true_iff, length_zero.
    split.
    + intros [H|H]; right; exists s; split; try reflexivity; [|exact H].
      destruct s; [reflexivity | discriminate H].
    + intros [H|(s' & Hs & Ht)]; [discriminate H|].
      injection Hs as <-. right. exact Ht.
Qed.

Lemma limit_rejected_range (s : string) :
  limit_rejected (parseInt s) = true <-> limit_out_of_range s.
Proof.
  unfold limit_out_of_range, limit_rejected.
  destruct (parseInt s) as [n|]; split.
  - intros H (m & Hm & Hr). injection Hm as <-. lia.
  - intros H. destruct ((n <? 1) || (200 <? n)) eqn:Hb; [reflexivity|].
    exfalso. apply H. exists n. split; [reflexivity | lia].
  - intros _ (m & Hm & _). discriminate Hm.
  - reflexivity.
Qed.

Lemma is_upper_range (a : ascii) :
  is_upper a = true <-> (65 <= ascii_code a <= 90)%N.
Proof.
  unfold is_upper, in_range. rewrite andb_true_iff, !N.leb_le. reflexivity.
Qed.

Lemma test_country_code_false (s : string) :
  negb (test_country_code s) = true <-> not_country_code s.
Proof.
  rewrite negb_true_iff. unfold not_country_code. split.
  - intros H (a & b & -> & Ha & Hb). simpl in H.
    apply is_upper_range in Ha, Hb. rewrite Ha, Hb in H. discriminate H.
  - intros H. destruct (test_country_code s) eqn:Ht; [|reflexivity].
    exfalso. apply H.
    destruct s as [|a [|b [|c r]]]; try discriminate Ht.
    simpl in Ht. apply andb_true_iff in Ht as [Ha Hb].
    exists a, b. rewrite <- !is_upper_range. auto.
Qed.

Lemma In_push_if (m msg : string) (c : bool) (errs : list string) :
  In m (push_if c msg errs) <-> In m errs \/ (c = true /\ m = msg).
Proof.
  unfold push_if. destruct c.
  - rewrite in_app_iff. simpl. intuition congruence.
  - intuition congruence.
Qed.

Lemma messages_distinct :
  TERM_ERROR <> MEDIA_ERROR /\ TERM_ERROR <> LIMIT_ERROR
  /\ TERM_ERROR <> COUNTRY_ERROR /\ MEDIA_ERROR <> LIMIT_ERROR
  /\ MEDIA_ERROR <> COUNTRY_ERROR /\ LIMIT_ERROR <> COUNTRY_ERROR.
Proof. repeat split; intros H; vm_compute in H; discriminate H. Qed.

Lemma push_if_sublist (c1 c2 c3 c4 : bool) (m1 m2 m3 m4 : string) :
  sublist (push_if c4 m4 (push_if c3 m3 (push_if c2 m2 (push_if c1 m1 []))))
          [m1; m2; m3; m4].
Proof.
  destruct c1, c2, c3, c4; simpl;
    repeat first [ apply sublist_nil | apply sublist_skip | apply sublist_cons ].
Qed.

Lemma media_rejected_violated (m : JsVal) :
  absent_or_string m = true ->
  (media_rejected m = true <-> violated_nonempty outside_media_types m).
Proof.
  unfold violated_nonempty, outside_media_types, media_rejected.
  destruct m as [| |b|n|s|xs|props]; try discriminate; intros _.
  - split; [discriminate | intros (s & Hs & _); discriminate Hs].
  - change (includes VALID_MEDIA_TYPES (JStr s)) with (mem s VALID_MEDIA_TYPES).
    rewrite andb_true_iff, truthy_JStr, negb_true_iff.
    rewrite <- not_true_iff_false, mem_In. split.
    + intros [H1 H2]. exists s. auto.
    + intros (s' & Hs & H1 & H2). injection Hs as <-. auto.
Qed.

Lemma limit_string_rejected_violated (l : JsVal) :
  limit_string_rejected l = true <-> violated_nonempty limit_out_of_range l.
Proof.
  unfold violated_nonempty, limit_string_rejected.
  destruct l as [| |b|n|s|xs|props];
    try (split; [discriminate | intros (s & Hs & _); discriminate Hs]).
  rewrite andb_true_iff, truthy_JStr, limit_rejected_range. split.
  - intros [H1 H2]. exists s. auto.
  - intros (s' & Hs & H1 & H2). injection Hs as <-. auto.
Qed.

Lemma country_string_rejected_violated (c : JsVal) :
  country_string_rejected c = true <-> violated_nonempty not_country_code c.
Proof.
  unfold violated_nonempty, country_string_rejected.
  destruct c as [| |b|n|s|xs|props];
    try (split; [discriminate | intros (s & Hs & _); discriminate Hs]).
  rewrite andb_true_iff, truthy_JStr, test_country_code_false. split.
  - intros [H1 H2]. exists s. auto.
  - intros (s' & Hs & H1 & H2). injection Hs as <-. auto.
Qed.

Lemma limit_step (l : JsVal) (errs : list string) :
  absent_or_string l = true ->
  (if truthy l
   then s <- to_string l ;; Ok (push_if (limit_rejected (parseInt s)) LIMIT_ERROR errs)
   else Ok errs)
  = Ok (push_if (limit_string_rejected l) LIMIT_ERROR errs).
Proof.
  destruct l as [| |b|n|s|xs|props]; try discriminate; intros _;
    [reflexivity|].
  unfold limit_string_rejected. destruct (truthy (JStr s)); reflexivity.
Qed.

Lemma country_step (c : JsVal) (errs : list string) :
  absent_or_string c = true ->
  (if truthy c
   then s <- to_string c ;;
        Ok (push_if (negb (test_country_code s)) COUNTRY_ERROR errs)
   else Ok errs)
  = Ok (push_if (country_string_rejected c) COUNTRY_ERROR errs).
Proof.
  destruct c as [| |b|n|s|xs|props]; try discriminate; intros _;
    [reflexivity|].
  unfold country_string_rejected. destruct (truthy (JStr s)); reflexivity.
Qed.

(** On fields that are absent or strings the validator returns, and
    its list holds exactly the messages of the rules that are broken. *)
Lemma validateSearchParams_strings (p : SearchParams) :
  string_params p = true ->
  exists errs,
    validateSearchParams p
    = Ok {| isValid := (length errs =? 0)%nat; errors := errs |}
    /\ reports errs p.
Proof.
  destruct p as [t m l c e x]. unfold string_params. simpl.
  rewrite !andb_true_iff. intros [[[[[Ht Hm] Hl] Hc] _] _].
  pose proof messages_distinct as (D1 & D2 & D3 & D4 & D5 & D6).
  pose proof (term_rejected_missing t Ht) as Rt.
  pose proof (media_rejected_violated m Hm) as Rm.
  pose proof (limit_string_rejected_violated l) as Rl.
  pose proof (country_string_rejected_violated c) as Rc.
  unfold validateSearchParams, reports; cbn [term media limit country].
  rewrite (limit_step l _ Hl). cbn [bind].
  rewrite (country_step c _ Hc). cbn [bind].
  fold (media_rejected m).
  eexists; split; [reflexivity|].
  rewrite !In_push_if. simpl.
  repeat split; try tauto; try (intros H; intuition congruence).
  apply push_if_sublist.
Qed.

Lemma valid_iff_no_error (errs : list string) :
  (length errs =? 0)%nat = true <-> errs = [].
Proof. destruct errs; simpl; split; intros H; congruence. Qed.

(** C2 (amended): on fields that are absent or strings the validator
    returns without an exception; its list holds, in order, one message
    for each broken rule (term missing or blank; media, limit or country
    present, not empty and malformed) and nothing else; the result is
    valid exactly when the list is empty. *)
Theorem validator_reports_every_violation (p : SearchParams) :
  string_params p = true ->
  exists r, validateSearchParams p = Ok r
    /\ (In TERM_ERROR (errors r) <-> term_missing (term p))
    /\ (In MEDIA_ERROR (errors r)
        <-> violated_nonempty outside_media_types (media p))
    /\ (In LIMIT_ERROR (errors r)
        <-> violated_nonempty limit_out_of_range (limit p))
    /\ (In COUNTRY_ERROR (errors r)
        <-> violated_nonempty not_country_code (country p))
    /\ sublist (errors r) [TERM_ERROR; MEDIA_ERROR; LIMIT_ERROR; COUNTRY_ERROR]
    /\ (isValid r = true <-> errors r = []).
Proof.
  intros Hp.
  destruct (validateSearchParams_strings p Hp) as (errs & Hv & H1 & H2 & H3 & H4 & H5).
  eexists. split; [exact Hv|]. simpl.
  repeat split; try tauto; try apply valid_iff_no_error; exact H5.
Qed.

Lemma sublist_nil_In (errs : list string) :
  sublist errs [TERM_ERROR; MEDIA_ERROR; LIMIT_ERROR; COUNTRY_ERROR] ->
  ~ In TERM_ERROR errs -> ~ In MEDIA_ERROR errs ->
  ~ In LIMIT_ERROR errs -> ~ In COUNTRY_ERROR errs -> errs = [].
Proof.
  intros Hs H1 H2 H3 H4. destruct errs as [|m errs]; [reflexivity|].
  exfalso.
  assert (Hin : In m [TERM_ERROR; MEDIA_ERROR; LIMIT_ERROR; COUNTRY_ERROR]).
  { apply list_elem_of_In. eapply elem_of_sublist; [|exact Hs]. left. }
  simpl in Hin, H1, H2, H3, H4. intuition congruence.
Qed.

(** C8: with a valid term, the limits "0" and "201" produce the limit
    error and the limits "1" and "200" do not; with these the request
    is valid when media and country break no rule. *)
Theorem limit_boundaries (p : SearchParams) :
  string_params p = true -> ~ term_missing (term p) ->
  exists r, validateSearchParams p = Ok r
    /\ (limit p = JStr "0" \/ limit p = JStr "201" ->
        In LIMIT_ERROR (errors r) /\ isValid r = false)
    /\ (limit p = JStr "1" \/ limit p = JStr "200" ->
        ~ In LIMIT_ERROR (errors r)
        /\ (~ violated_nonempty outside_media_types (media p) ->
            ~ violated_nonempty not_country_code (country p) ->
            isValid r = true)).
Proof.
  intros Hp Hterm.
  destruct (validateSearchParams_strings p Hp) as (errs & Hv & H1 & H2 & H3 & H4 & H5).
  eexists. split; [exact Hv|]. simpl. split.
  - intros Hl.
    assert (Hin : In LIMIT_ERROR errs).
    { apply H3. destruct Hl as [-> | ->]; eexists; (split; [reflexivity|]);
        (split; [discriminate|]); intros (n & Hn & Hr);
        vm_compute in Hn; injection Hn as <-; lia. }
    split; [exact Hin|]. destruct errs; [contradiction Hin | reflexivity].
  - intros Hl.
    assert (Hnot : ~ In LIMIT_ERROR errs).
    { rewrite H3. intros (s & Hs & _ & Hr). apply Hr.
      destruct Hl as [Hl | Hl]; rewrite Hl in Hs; injection Hs as <-;
        eexists; (split; [vm_compute; reflexivity | lia]). }
    split; [exact Hnot|]. intros Hm Hc.
    apply valid_iff_no_error. apply sublist_nil_In; tauto.
Qed.

(** *** The normalizer *)

Lemma replace_first_nonempty (pat : string) (c : ascii) (r : string) :
  truthy (JStr (replace_first pat "300x300" (String c r))) = true.
Proof.
  cbn [replace_first]. destruct (strip_prefix pat (String c r)); reflexivity.
Qed.

(** One link of the artwork chain on a field that is absent, nullish
    or a string. *)
Lemma or_else_replace (o : option JsVal) (pat : string) (k : Result JsVal) :
  pat <> "" -> nullish_or_string o = true ->
  or_else (v <- Ok (default JUndefined o) ;; opt_replace v pat "300x300") k
  = match nonempty_string o with
    | Some s => Ok (JStr (replace_first pat "300x300" s))
    | None => k
    end.
Proof.
  intros Hpat.
  destruct o as [[| |b|n|s|xs|props]|]; try discriminate; intros _;
    try reflexivity.
  destruct s as [|c r]; [destruct pat; [contradiction | reflexivity]|].
  unfold or_else. cbn [from_option id bind opt_replace nonempty_string].
  rewrite replace_first_nonempty. reflexivity.
Qed.

Lemma artworkUrl_of_typed (item : gmap string JsVal) :
  artwork_fields_typed item = true ->
  artworkUrl_of (JObj item) = Ok (artworkUrl_first_nonempty item).
Proof.
  unfold artwork_fields_typed. rewrite !andb_true_iff. intros [[H1 H2] H3].
  unfold artworkUrl_of, artworkUrl_first_nonempty. cbn [get].
  rewrite (or_else_replace _ "100x100" _ ltac:(discriminate) H1),
    (or_else_replace _ "60x60" _ ltac:(discriminate) H2),
    (or_else_replace _ "30x30" _ ltac:(discriminate) H3).
  destruct (nonempty_string (item !! "artworkUrl100")); [reflexivity|].
  destruct (nonempty_string (item !! "artworkUrl60")); [reflexivity|].
  destruct (nonempty_string (item !! "artworkUrl30")); reflexivity.
Qed.

(** The object that [enhance] returns, field by field. *)
Lemma enhance_inv (now : number) (item out : JsVal) :
  enhance now item = Ok out ->
  exists a r f m g u,
    artworkUrl_of item = Ok a /\ releaseDate_of item = Ok r
    /\ formattedPrice_of item = Ok f /\ mediaType_of item = Ok m
    /\ primaryGenre_of item = Ok g /\ uniqueId_of now item = Ok u
    /\ out = JObj (<["uniqueId" := u]> (<["primaryGenre" := g]>
               (<["mediaType" := m]> (<["formattedPrice" := f]>
               (<["releaseDate" := r]> (<["artworkUrl" := a]> (spread item))))))).
Proof.
  unfold enhance. intros H.
  destruct (artworkUrl_of item) as [a|]; [|discriminate H].
  destruct (releaseDate_of item) as [r|]; [|discriminate H].
  destruct (formattedPrice_of item) as [f|]; [|discriminate H].
  destruct (mediaType_of item) as [m|]; [|discriminate H].
  destruct (primaryGenre_of item) as [g|]; [|discriminate H].
  destruct (uniqueId_of now item) as [u|]; [|discriminate H].
  simpl in H. injection H as <-. exists a, r, f, m, g, u. repeat split.
Qed.

(** C3 (amended): on a record whose artwork fields are absent, nullish
    or strings, artworkUrl is the first of artworkUrl100, artworkUrl60,
    artworkUrl30 that is a non-empty string, with the first occurrence
    of its size token replaced by 300x300; when none is, it is the
    field artworkUrl100 as it is, hence undefined (not null) when the
    three are absent.  A record with only a non-empty artworkUrl60
    gets that field with 60x60 replaced. *)
Theorem artworkUrl_first_available (now : number) (item : gmap string JsVal) :
  artwork_fields_typed item = true ->
  artworkUrl_of (JObj item) = Ok (artworkUrl_first_nonempty item)
  /\ (forall out, enhance now (JObj item) = Ok out ->
        get out "artworkUrl" = Ok (artworkUrl_first_nonempty item))
  /\ (forall c r, item !! "artworkUrl100" = None ->
        item !! "artworkUrl60" = Some (JStr (String c r)) ->
        artworkUrl_first_nonempty item
        = JStr (replace_first "60x60" "300x300" (String c r)))
  /\ (item !! "artworkUrl100" = None -> item !! "artworkUrl60" = None ->
      item !! "artworkUrl30" = None ->
      artworkUrl_first_nonempty item = JUndefined).
Proof.
  intros Ht. pose proof (artworkUrl_of_typed item Ht) as Ha.
  split; [exact Ha|]. split; [|split].
  - intros out Hout.
    destruct (enhance_inv now _ _ Hout) as (a & r & f & m & g & u & Ea & _ & _ & _ & _ & _ & ->).
    rewrite Ha in Ea. injection Ea as <-. cbn [get].
    rewrite !lookup_insert_ne by discriminate. rewrite lookup_insert_eq.
    reflexivity.
  - intros c r H100 H60. unfold artworkUrl_first_nonempty.
    rewrite H100, H60. reflexivity.
  - intros H100 H60 H30. unfold artworkUrl_first_nonempty.
    rewrite H100, H60, H30. reflexivity.
Qed.

Lemma enhance_fields (now : number) (item out : JsVal) :
  enhance now item = Ok out ->
  get out "artworkUrl" = artworkUrl_of item
  /\ get out "releaseDate" = releaseDate_of item
  /\ get out "formattedPrice" = formattedPrice_of item
  /\ get out "mediaType" = mediaType_of item
  /\ get out "primaryGenre" = primaryGenre_of item
  /\ get out "uniqueId" = uniqueId_of now item.
Proof.
  intros H.
  destruct (enhance_inv now _ _ H)
    as (a & r & f & m & g & u & -> & -> & -> & -> & -> & -> & ->).
  cbn [get]. repeat split;
    rewrite ?lookup_insert_ne by discriminate; rewrite lookup_insert_eq;
    reflexivity.
Qed.

(** C5 (amended): a releaseDate that is a non-empty string gives the
    locale-formatted date when it parses and the string "Invalid Date"
    when it does not; an absent or empty releaseDate gives null; no
    exception is raised in either case. *)
Theorem releaseDate_formatting (now : number) (item : gmap string JsVal) :
  (forall c r, item !! "releaseDate" = Some (JStr (String c r)) ->
     releaseDate_of (JObj item)
     = Ok (JStr match date_parse (String c r) with
                | Some t => to_locale_date_string t
                | None => "Invalid Date"
                end))
  /\ (item !! "releaseDate" = None \/ item !! "releaseDate" = Some (JStr "") ->
      releaseDate_of (JObj item) = Ok JNull)
  /\ (forall out, enhance now (JObj item) = Ok out ->
        get out "releaseDate" = releaseDate_of (JObj item)).
Proof.
  split; [|split].
  - intros c r H. unfold releaseDate_of. cbn [get]. rewrite H. reflexivity.
  - intros [H|H]; unfold releaseDate_of; cbn [get]; rewrite H; reflexivity.
  - intros out H. apply (enhance_fields now _ _ H).
Qed.

Lemma to_string_primitive (v : JsVal) :
  primitive (Some v) = true -> exists s, to_string v = Ok s.
Proof.
  destruct v as [| |[|]|n|s|xs|props]; try discriminate; intros _;
    eexists; reflexivity.
Qed.

Lemma new_Date_primitive (v : JsVal) :
  primitive (Some v) = true -> exists t, new_Date v = Ok t.
Proof.
  destruct v as [| |b|n|s|xs|props]; try discriminate; intros _;
    eexists; reflexivity.
Qed.

Lemma primitive_default (o : option JsVal) :
  primitive o = true -> primitive (Some (default JUndefined o)) = true.
Proof. destruct o; [trivial | reflexivity]. Qed.

Lemma releaseDate_of_primitive (item : gmap string JsVal) :
  primitive (item !! "releaseDate") = true ->
  exists v, releaseDate_of (JObj item) = Ok v.
Proof.
  intros H. apply primitive_default in H. unfold releaseDate_of. cbn [get bind].
  destruct (truthy _); [|eauto].
  destruct (new_Date_primitive _ H) as (t & ->). eexists; reflexivity.
Qed.

Lemma formattedPrice_of_primitive (item : gmap string JsVal) :
  primitive (item !! "trackPrice") = true ->
  primitive (item !! "collectionPrice") = true ->
  exists v, formattedPrice_of (JObj item) = Ok v.
Proof.
  intros H1 H2. apply primitive_default in H1, H2.
  unfold formattedPrice_of. cbn [get bind].
  destruct (truthy _).
  - destruct (to_string_primitive _ H1) as (s & ->). eexists; reflexivity.
  - destruct (truthy _); [|eauto].
    destruct (to_string_primitive _ H2) as (s & ->). eexists; reflexivity.
Qed.

Lemma or_else_Ok (r k : Result JsVal) :
  (exists v, r = Ok v) -> (exists v, k = Ok v) -> exists v, or_else r k = Ok v.
Proof.
  intros (v & ->) (v' & ->). unfold or_else. cbn [bind].
  destruct (truthy v); eauto.
Qed.

Lemma enhance_well_typed (now : number) (item : gmap string JsVal) :
  well_typed_record item = true ->
  exists out, enhance now (JObj item) = Ok (JObj out).
Proof.
  unfold well_typed_record. rewrite !andb_true_iff.
  intros [[[Ha Hr] Ht] Hc]. unfold enhance.
  rewrite (artworkUrl_of_typed item Ha).
  destruct (releaseDate_of_primitive item Hr) as (r & ->).
  destruct (formattedPrice_of_primitive item Ht Hc) as (f & ->).
  assert (Hm : exists v, mediaType_of (JObj item) = Ok v).
  { unfold mediaType_of. repeat apply or_else_Ok; cbn [get]; eauto. }
  assert (Hg : exists v, primaryGenre_of (JObj item) = Ok v).
  { unfold primaryGenre_of. repeat apply or_else_Ok; cbn [get bind]; eauto. }
  assert (Hu : exists v, uniqueId_of now (JObj item) = Ok v).
  { unfold uniqueId_of. repeat apply or_else_Ok; cbn [get]; eauto. }
  destruct Hm as (m & ->), Hg as (g & ->), Hu as (u & ->).
  cbn [bind]. eexists; reflexivity.
Qed.

Lemma map_enhance_pointwise (c : nat -> number) (l : list JsVal) :
  forall i outs, map_enhance c i l = Ok outs ->
  length outs = length l
  /\ forall j r, l !! j = Some r ->
       exists o, outs !! j = Some o /\ enhance (c (i + j)%nat) r = Ok o.
Proof.
  induction l as [|x l IH]; intros i outs H; simpl in H.
  - injection H as <-. split; [reflexivity|]. intros j r Hj. discriminate Hj.
  - destruct (enhance (c i) x) as [o|] eqn:Ho; [|discriminate H].
    destruct (map_enhance c (S i) l) as [os|] eqn:Hos; [|discriminate H].
    simpl in H. injection H as <-.
    destruct (IH _ _ Hos) as [Hlen Hall]. split; [simpl; congruence|].
    intros [|j] r Hj; simpl in Hj.
    + injection Hj as <-. exists o. rewrite Nat.add_0_r. auto.
    + destruct (Hall j r Hj) as (o' & Ho' & He). exists o'.
      replace (i + S j)%nat with (S i + j)%nat by lia. auto.
Qed.


Lemma gt_zero_primitive (v : JsVal) :
  primitive (Some v) = true -> exists b, gt_zero v = Ok b.
Proof.
  destruct v as [| |b|n|s|xs|props]; try discriminate; intros _;
    eexists; reflexivity.
Qed.

Lemma js_or_primitive (o : option JsVal) (n : number) :
  primitive o = true ->
  primitive (Some (js_or (default JUndefined o) (JNum n))) = true.
Proof.
  intros H. apply primitive_default in H. unfold js_or.
  destruct (truthy _); [exact H | reflexivity].
Qed.

Lemma processItunesResponse_array (clock : nat -> number) (searchedAt : string)
    (data : gmap string JsVal) (rs : list JsVal) :
  data !! "results" = Some (JArr rs) ->
  processItunesResponse clock searchedAt (JObj data)
  = (outs <- map_enhance clock 0 rs ;;
     let resultCount :=
       js_or (default JUndefined (data !! "resultCount")) (JNum (num_of_Z 0)) in
     hasResults <- gt_zero resultCount ;;
     Ok (object
           [ ("resultCount", resultCount);
             ("results", JArr outs);
             ("searchInfo",
               object [ ("totalResults", resultCount);
                        ("hasResults", JBool hasResults);
                        ("searchedAt", JStr searchedAt) ]) ])).
Proof.
  intros Hrs. unfold processItunesResponse. cbn [get bind]. rewrite Hrs.
  reflexivity.
Qed.


(** *** The builder *)

Lemma append_default (sp : list (string * string)) (k : string) (v : JsVal)
    (d : string) :
  absent_or_string v = true -> d <> "" ->
  append sp k (js_or v (JStr d)) = Ok (sp ++ [(k, string_or v d)])%list.
Proof.
  intros Hv Hd. destruct v as [| |b|n|s|xs|props]; try discriminate Hv.
  - reflexivity.
  - destruct s; reflexivity.
Qed.

Lemma js_or_media (m : JsVal) :
  absent_or_string m = true ->
  js_or m (JStr "all") = JStr (string_or m "all").
Proof.
  intros Hm. destruct m as [| |b|n|s|xs|props]; try discriminate Hm.
  - reflexivity.
  - destruct s; reflexivity.
Qed.

Lemma validEntities_valid (m : string) :
  In m VALID_MEDIA_TYPES -> validEntities (JStr m) = Ok (entity_set m).
Proof.
  intros H. simpl in H.
  repeat (destruct H as [<-|H]; [reflexivity|]). contradiction.
Qed.

Lemma entity_names_nonempty (m : string) : mem "" (entity_set m) = false.
Proof.
  unfold entity_set. destruct (MEDIA_ENTITIES !! m) as [l|] eqn:Hl; [|reflexivity].
  apply elem_of_list_to_map_2 in Hl.
  repeat (apply elem_of_cons in Hl as [Hl|Hl]; [injection Hl as _ ->; reflexivity|]).
  apply elem_of_nil in Hl. contradiction.
Qed.

Lemma buildItunesParams_strings (p : SearchParams) (t : string) :
  string_params p = true -> term p = JStr t ->
  In (effective_media p) VALID_MEDIA_TYPES ->
  buildItunesParams p = Ok (base_params p t ++ entity_param p)%list.
Proof.
  unfold string_params. rewrite !andb_true_iff.
  intros [[[[[_ Hm] Hl] Hc] He] Hx] Ht Hv.
  unfold buildItunesParams, base_params, entity_param.
  rewrite Ht. cbn [call_trim bind].
  change (append [] "term" (JStr (trim t))) with (Ok [("term", trim t)]).
  cbn [bind].
  rewrite (append_default _ _ _ "all" Hm ltac:(discriminate)). cbn [bind].
  rewrite (append_default _ _ _ "50" Hl ltac:(discriminate)). cbn [bind].
  rewrite (append_default _ _ _ "US" Hc ltac:(discriminate)). cbn [bind].
  rewrite (append_default _ _ _ "Yes" Hx ltac:(discriminate)). cbn [bind].
  rewrite (js_or_media _ Hm).
  change (string_or (media p) "all") with (effective_media p).
  destruct (entity p) as [| |b|n|s|xs|props]; try discriminate He;
    [reflexivity|].
  destruct s as [|a r]; [rewrite entity_names_nonempty; reflexivity|].
  change (truthy (JStr (String a r))) with true. cbv iota.
  rewrite (validEntities_valid _ Hv). cbn [bind includes].
  destruct (mem (String a r) (entity_set (effective_media p))); reflexivity.
Qed.

(** *** The query string of the built URL *)

Lemma append_cons (a : ascii) (s t : string) :
  String a s ++ t = String a (s ++ t).
Proof. reflexivity. Qed.

Lemma append_empty_r (s : string) : s ++ "" = s.
Proof.
  induction s as [|a s IH]; [reflexivity|].
  rewrite append_cons, IH. reflexivity.
Qed.

Lemma append_associative (s1 s2 s3 : string) :
  (s1 ++ s2) ++ s3 = s1 ++ s2 ++ s3.
Proof.
  induction s1 as [|a s1 IH]; [reflexivity|].
  rewrite !append_cons, IH. reflexivity.
Qed.

Lemma occurs_app (c : ascii) (s1 s2 : string) :
  occurs c (s1 ++ s2) = occurs c s1 || occurs c s2.
Proof.
  induction s1 as [|a s1 IH]; [reflexivity|].
  rewrite append_cons. cbn [occurs]. rewrite IH. apply orb_assoc.
Qed.

Lemma split_on_absent (c : ascii) (s : string) :
  occurs c s = false -> split_on c s = [s].
Proof.
  induction s as [|a s IH]; cbn [occurs split_on]; [reflexivity|].
  intros H. apply orb_false_iff in H as [Ha Hs].
  rewrite Ha, (IH Hs). reflexivity.
Qed.

Lemma split_on_app (c : ascii) (s1 s2 : string) :
  occurs c s1 = false ->
  split_on c (s1 ++ String c s2) = s1 :: split_on c s2.
Proof.
  induction s1 as [|a s1 IH].
  - intros _. change ("" ++ String c s2) with (String c s2).
    cbn [split_on]. rewrite Ascii.eqb_refl. reflexivity.
  - rewrite append_cons. cbn [occurs split_on].
    intros H. apply orb_false_iff in H as [Ha Hs].
    rewrite Ha, (IH Hs). reflexivity.
Qed.

Lemma urlencode_byte_clean (c a : ascii) :
  separator c -> occurs c (urlencode_byte a) = false.
Proof.
  intros [-> | [-> | ->]];
    destruct a as [[] [] [] [] [] [] [] []]; reflexivity.
Qed.

Lemma urlencode_clean (c : ascii) (s : string) :
  separator c -> occurs c (urlencode s) = false.
Proof.
  intros Hc. induction s as [|a s IH]; cbn [urlencode]; [reflexivity|].
  rewrite occurs_app, IH, (urlencode_byte_clean c a Hc). reflexivity.
Qed.

Lemma occurs_pair (c : ascii) (k v rest : string) :
  separator c ->
  occurs c (urlencode k ++ "=" ++ urlencode v ++ rest)
  = Ascii.eqb "=" c || occurs c rest.
Proof.
  intros Hs.
  change (urlencode k ++ "=" ++ urlencode v ++ rest)
    with (urlencode k ++ String "=" (urlencode v ++ rest)).
  rewrite occurs_app, (urlencode_clean c k Hs). cbn [occurs orb].
  rewrite occurs_app, (urlencode_clean c v Hs). reflexivity.
Qed.

Lemma pair_clean (c : ascii) (k v : string) :
  c = "&"%char \/ c = "?"%char ->
  occurs c (urlencode k ++ "=" ++ urlencode v) = false.
Proof.
  intros Hc.
  assert (Hs : separator c) by (unfold separator; tauto).
  replace (urlencode v) with (urlencode v ++ "") by apply append_empty_r.
  rewrite (occurs_pair c k v "" Hs).
  destruct Hc as [-> | ->]; reflexivity.
Qed.

Lemma serialize_params_no_question (sp : list (string * string)) :
  occurs "?" (serialize_params sp) = false.
Proof.
  induction sp as [|[k v] sp IH]; [reflexivity|].
  destruct sp as [|kv sp].
  - apply pair_clean. tauto.
  - change (serialize_params ((k, v) :: kv :: sp))
      with (urlencode k ++ "=" ++ urlencode v ++ "&" ++ serialize_params (kv :: sp)).
    rewrite occurs_pair by (unfold separator; tauto).
    exact IH.
Qed.

Lemma split_serialize_params (sp : list (string * string)) :
  sp <> [] ->
  split_on "&" (serialize_params sp)
  = map (fun kv => urlencode (fst kv) ++ "=" ++ urlencode (snd kv)) sp.
Proof.
  induction sp as [|[k v] sp IH]; [contradiction|]. intros _.
  destruct sp as [|kv sp].
  - simpl. rewrite split_on_absent; [reflexivity|]. apply pair_clean. tauto.
  - change (serialize_params ((k, v) :: kv :: sp))
      with (urlencode k ++ "=" ++ urlencode v ++ "&" ++ serialize_params (kv :: sp)).
    replace (urlencode k ++ "=" ++ urlencode v ++ "&" ++ serialize_params (kv :: sp))
      with ((urlencode k ++ "=" ++ urlencode v)
            ++ String "&" (serialize_params (kv :: sp))).
    + rewrite split_on_app by (apply pair_clean; tauto).
      rewrite IH by discriminate. reflexivity.
    + rewrite !append_associative. reflexivity.
Qed.

Lemma pair_name (k v : string) :
  hd EmptyString (split_on "=" (urlencode k ++ "=" ++ urlencode v)) = urlencode k.
Proof.
  change (urlencode k ++ "=" ++ urlencode v)
    with (urlencode k ++ String "=" (urlencode v)).
  rewrite split_on_app; [reflexivity|].
  apply urlencode_clean. unfold separator. tauto.
Qed.

(** The parameter names of a built URL are the (encoded) names that
    were appended, in order. *)
Lemma param_names_built (sp : list (string * string)) :
  sp <> [] ->
  param_names (ITUNES_SEARCH_ENDPOINT ++ "?" ++ serialize_params sp)
  = map (fun kv => urlencode (fst kv)) sp.
Proof.
  intros Hsp. unfold param_names.
  change (ITUNES_SEARCH_ENDPOINT ++ "?" ++ serialize_params sp)
    with ("https://itunes.apple.com/search" ++ String "?" (serialize_params sp)).
  rewrite split_on_app by reflexivity.
  rewrite (split_on_absent _ _ (serialize_params_no_question sp)).
  rewrite (split_serialize_params sp Hsp), map_map.
  apply map_ext. intros [k v]. apply pair_name.
Qed.

Lemma validated_params (p : SearchParams) (v : Validation) :
  string_params p = true -> validateSearchParams p = Ok v -> isValid v = true ->
  In (effective_media p) VALID_MEDIA_TYPES /\ exists t, term p = JStr t.
Proof.
  intros Hp Hv Hi.
  destruct (validateSearchParams_strings p Hp) as (errs & Hv' & Ht & Hm & _).
  rewrite Hv in Hv'. injection Hv' as ->. simpl in Hi.
  apply valid_iff_no_error in Hi. subst errs. split.
  - unfold effective_media.
    destruct (media p) as [| |b|n|s|xs|props];
      try (left; reflexivity).
    destruct s as [|c r]; [left; reflexivity|].
    destruct (mem (String c r) VALID_MEDIA_TYPES) eqn:Hmem;
      [apply mem_In; exact Hmem|].
    exfalso. apply Hm. exists (String c r).
    split; [reflexivity|]. split; [discriminate|].
    unfold outside_media_types. rewrite <- mem_In, Hmem. discriminate.
  - unfold string_params in Hp. rewrite !andb_true_iff in Hp.
    destruct Hp as [[[[[Hterm _] _] _] _] _].
    destruct (term p) as [| |b|n|s|xs|props]; try discriminate Hterm; [|eauto].
    exfalso. apply Ht. left. reflexivity.
Qed.

Lemma buildItunesUrl_strings (p : SearchParams) (t : string) :
  string_params p = true -> term p = JStr t ->
  In (effective_media p) VALID_MEDIA_TYPES ->
  buildItunesUrl p
  = Ok (ITUNES_SEARCH_ENDPOINT ++ "?"
        ++ serialize_params (base_params p t ++ entity_param p)%list).
Proof.
  intros Hp Ht Hm. unfold buildItunesUrl.
  rewrite (buildItunesParams_strings p t Hp Ht Hm). reflexivity.
Qed.

Lemma param_names_strings (p : SearchParams) (t : string) :
  param_names (ITUNES_SEARCH_ENDPOINT ++ "?"
               ++ serialize_params (base_params p t ++ entity_param p)%list)
  = (["term"; "media"; "limit"; "country"; "explicit"]
     ++ map (fun kv => urlencode (fst kv)) (entity_param p))%list.
Proof.
  rewrite param_names_built by discriminate.
  rewrite map_app. reflexivity.
Qed.

(** C6 (amended): for a validated query the built URL has an entity
    parameter exactly when an entity is supplied and belongs to the
    entity set of the effective media type, which is the supplied media,
    or "all" when media is absent or empty; the URL is built in either
    case.  With media "music" and entity "podcast" there is none. *)
Theorem entity_only_when_compatible (p : SearchParams) (v : Validation) :
  string_params p = true ->
  validateSearchParams p = Ok v -> isValid v = true ->
  exists url, buildItunesUrl p = Ok url
    /\ (In "entity" (param_names url)
        <-> exists e, entity p = JStr e /\ In e (entity_set (effective_media p)))
    /\ (media p = JStr "music" -> entity p = JStr "podcast" ->
        ~ In "entity" (param_names url)).
Proof.
  intros Hp Hv Hi.
  destruct (validated_params p v Hp Hv Hi) as (Hm & t & Ht).
  eexists. split; [apply (buildItunesUrl_strings p t Hp Ht Hm)|].
  rewrite param_names_strings.
  assert (Hiff : In "entity"
                   (["term"; "media"; "limit"; "country"; "explicit"]
                    ++ map (fun kv => urlencode (fst kv)) (entity_param p))%list
                 <-> exists e, entity p = JStr e
                               /\ In e (entity_set (effective_media p))).
  { rewrite in_app_iff. unfold entity_param.
    destruct (entity p) as [| |b|n|e|xs|props].
    1-4,6-7: split;
      [ intros [H|H];
        [simpl in H; repeat (destruct H as [H|H]; [discriminate H|]); contradiction
        | contradiction H]
      | intros (e' & He & _); discriminate He ].
    destruct (mem e (entity_set (effective_media p))) eqn:Hmem.
    - split; [|intros _; right; left; reflexivity].
      intros _. exists e. split; [reflexivity | apply mem_In; exact Hmem].
    - split.
      + intros [H|H]; [|contradiction H].
        simpl in H. repeat (destruct H as [H|H]; [discriminate H|]).
        contradiction.
      + intros (e' & He & Hin). injection He as <-.
        apply mem_In in Hin. congruence. }
  split; [exact Hiff|].
  intros Hmusic Hpod. rewrite Hiff. intros (e & He & Hin).
  rewrite Hpod in He. injection He as <-.
  unfold effective_media in Hin. rewrite Hmusic in Hin.
  vm_compute in Hin. repeat (destruct Hin as [Hin|Hin]; [discriminate Hin|]).
  exact Hin.
Qed.

(** C7: the query { term: "Adele", media: "music", limit: "5" } gives
    the URL whose query string is
    term=Adele&media=music&limit=5&country=US&explicit=Yes; in general,
    without an entity, the parameters are term, media, limit, country,
    explicit in this order, the term trimmed, every value
    percent-encoded, and "all", "50", "US", "Yes" standing in for an
    absent media, limit, country, explicit. *)
Theorem builder_defaults_and_order :
  buildItunesUrl
    {| term := JStr "Adele"; media := JStr "music"; limit := JStr "5";
       country := JUndefined; entity := JUndefined; explicit := JUndefined |}
  = Ok "https://itunes.apple.com/search?term=Adele&media=music&limit=5&country=US&explicit=Yes"
  /\ forall t m l c x,
       absent_or_string m = true -> absent_or_string l = true ->
       absent_or_string c = true -> absent_or_string x = true ->
       buildItunesUrl
         {| term := JStr t; media := m; limit := l; country := c;
            entity := JUndefined; explicit := x |}
       = Ok ("https://itunes.apple.com/search?term=" ++ urlencode (trim t)
             ++ "&media=" ++ urlencode (string_or m "all")
             ++ "&limit=" ++ urlencode (string_or l "50")
             ++ "&country=" ++ urlencode (string_or c "US")
             ++ "&explicit=" ++ urlencode (string_or x "Yes")).
Proof.
  split; [reflexivity|].
  intros t m l c x Hm Hl Hc Hx.
  unfold buildItunesUrl, buildItunesParams.
  cbn [term media limit country entity explicit call_trim bind].
  change (append [] "term" (JStr (trim t))) with (Ok [("term", trim t)]).
  cbn [bind].
  rewrite (append_default _ _ _ "all" Hm ltac:(discriminate)). cbn [bind].
  rewrite (append_default _ _ _ "50" Hl ltac:(discriminate)). cbn [bind].
  rewrite (append_default _ _ _ "US" Hc ltac:(discriminate)). cbn [bind].
  rewrite (append_default _ _ _ "Yes" Hx ltac:(discriminate)). cbn [bind].
  reflexivity.
Qed.

End Proofs.

(** ** The statements at concrete inputs *)

Section Checks.
#[local] Existing Instance IntEngine.

(** Scenario 4: an upstream call that times out is answered 408
    "Request Timeout". *)
Lemma failure_mapping_timeout :
  validateSearchParams (searchParams_of adele_query)
  = Ok {| isValid := true; errors := [] |}
  /\ buildItunesUrl (searchParams_of adele_query) = Ok adele_url
  /\ axios_get timeout_world adele_url = Throw timeout_error
  /\ responds (snd (search_handler timeout_world adele_query)) 408 "Request Timeout".
Proof.
  assert (Hv : validateSearchParams (searchParams_of adele_query)
               = Ok {| isValid := true; errors := [] |}) by reflexivity.
  assert (Hu : buildItunesUrl (searchParams_of adele_query) = Ok adele_url)
    by reflexivity.
  split; [exact Hv|]. split; [exact Hu|]. split; [reflexivity|].
  destruct (failure_mapping timeout_world adele_query _ adele_url Hv eq_refl Hu)
    as [Hmap _].
  destruct (Hmap timeout_error eq_refl) as [H408 _]. apply H408.
  left. reflexivity.
Defined.

(** Scenario 2: an empty term is answered 400 and nothing is sent
    upstream. *)
Lemma invalid_never_reaches_upstream_empty_term :
  validateSearchParams (searchParams_of empty_term_query)
  = Ok {| isValid := false; errors := [TERM_ERROR] |}
  /\ status (snd (search_handler timeout_world empty_term_query)) = 400
  /\ calls_upstream (fst (search_handler timeout_world empty_term_query)) = false.
Proof.
  assert (Hv : validateSearchParams (searchParams_of empty_term_query)
               = Ok {| isValid := false; errors := [TERM_ERROR] |}) by reflexivity.
  split; [exact Hv|].
  destruct (invalid_never_reaches_upstream timeout_world empty_term_query)
    as [Hinv _].
  destruct (Hinv _ Hv eq_refl) as (Hs & _ & Hc). split; [exact Hs | exact Hc].
Defined.

(** C2, as stated, fails on [?term=a&limit=]: the empty limit does not
    parse to an integer in [1,200], and no error is reported. *)
Lemma empty_limit_not_reported : ~ validator_as_stated empty_limit.
Proof.
  intros (r & Hr & _ & _ & Hl & _).
  vm_compute in Hr. injection Hr as <-.
  apply Hl. exists "". split; [reflexivity|].
  intros (n & Hn & _). discriminate Hn.
Qed.

(** Four broken rules give the four messages, in order. *)
Lemma validator_reports_every_violation_all_wrong :
  string_params all_wrong = true
  /\ exists r, validateSearchParams all_wrong = Ok r
       /\ errors r = [TERM_ERROR; MEDIA_ERROR; LIMIT_ERROR; COUNTRY_ERROR]
       /\ isValid r = false.
Proof.
  split; [reflexivity|].
  destruct (validator_reports_every_violation all_wrong eq_refl)
    as (r & Hr & _).
  exists r. split; [exact Hr|].
  vm_compute in Hr. injection Hr as <-. split; reflexivity.
Defined.

(** The limit "0" is rejected. *)
Lemma limit_boundaries_zero :
  string_params limit_zero = true /\ ~ term_missing (term limit_zero)
  /\ exists r, validateSearchParams limit_zero = Ok r
       /\ In LIMIT_ERROR (errors r) /\ isValid r = false.
Proof.
  assert (Hterm : ~ term_missing (term limit_zero)).
  { intros [H | (s & Hs & Ht)]; [discriminate H|].
    injection Hs as <-. vm_compute in Ht. discriminate Ht. }
  split; [reflexivity|]. split; [exact Hterm|].
  destruct (limit_boundaries limit_zero eq_refl Hterm) as (r & Hr & Hlow & _).
  exists r. split; [exact Hr|]. apply Hlow. left. reflexivity.
Defined.

(** C3, as stated, fails on the record with no artwork field: the
    normalized artworkUrl is [undefined], not [null]. *)
Lemma absent_artwork_is_undefined :
  ~ normalized_artwork_as_stated (Some 0) ∅.
Proof.
  intros (out & a & Hout & Ha & Hstated).
  destruct (enhance_fields _ _ _ Hout) as (Hart & _).
  rewrite Hart in Ha. change (Ok JUndefined = Ok a) in Ha. injection Ha as <-.
  unfold artworkUrl_as_stated in Hstated. rewrite !lookup_empty in Hstated.
  discriminate Hstated.
Qed.

(** A record with only a 60x60 artwork gets it at 300x300. *)
Lemma artworkUrl_first_available_only60 :
  artwork_fields_typed only_artwork60 = true
  /\ artworkUrl_of (JObj only_artwork60)
     = Ok (JStr "https://is1.mzstatic.com/image/300x300bb.jpg").
Proof.
  split; [reflexivity|].
  destruct (artworkUrl_first_available (E := IntEngine) (Some 0) only_artwork60 eq_refl)
    as (Ha & _).
  rewrite Ha. reflexivity.
Defined.

(** C5, as stated, fails on a record whose releaseDate is "TBA": the
    string does not parse, and the normalized releaseDate is the string
    "Invalid Date", not [null]. *)
Lemma unparseable_date_is_not_null :
  ~ releaseDate_as_stated (Some 0) unparseable_date.
Proof.
  intros H. destruct (H "TBA" eq_refl) as (out & Hout & Hget).
  destruct (enhance_fields _ _ _ Hout) as (_ & Hdate & _).
  rewrite Hdate in Hget.
  change (Ok (JStr "Invalid Date") = Ok JNull) in Hget. discriminate Hget.
Qed.

(** The release date "TBA" is rendered "Invalid Date". *)
Lemma releaseDate_formatting_unparseable :
  unparseable_date !! "releaseDate" = Some (JStr "TBA")
  /\ releaseDate_of (JObj unparseable_date) = Ok (JStr "Invalid Date").
Proof.
  split; [reflexivity|].
  destruct (releaseDate_formatting (E := IntEngine) (Some 0) unparseable_date) as (Hparse & _).
  rewrite (Hparse "T"%char "BA" eq_refl). reflexivity.
Defined.

(** C4: on the free track [{ trackId: 7, trackPrice: 0 }] the
    track-level price is present, and the normalized formattedPrice is
    "N/A" instead of "0". *)
Lemma free_track_price_is_dropped :
  free_track !! "trackPrice" = Some (JNum (Some 0))
  /\ to_string (JNum (Some 0)) = Ok "0"
  /\ exists out, enhance (Some 0) (JObj free_track) = Ok out
       /\ get out "formattedPrice" = Ok (JStr "N/A").
Proof.
  split; [reflexivity|]. split; [reflexivity|].
  destruct (enhance_well_typed (E := IntEngine) (Some 0) free_track eq_refl) as (out & Hout).
  exists (JObj out). split; [exact Hout|].
  destruct (enhance_fields _ _ _ Hout) as (_ & _ & Hprice & _).
  rewrite Hprice. reflexivity.
Qed.

(** Scenario 3 of the specification. *)
Lemma scenario_3_normalized :
  exists out, enhance (Some 0) (JObj scenario_3_record) = Ok out
    /\ get out "uniqueId" = Ok (JNum (Some 42))
    /\ get out "artworkUrl"
       = Ok (JStr "https://is1.mzstatic.com/image/300x300bb.jpg")
    /\ get out "formattedPrice" = Ok (JStr "N/A")
    /\ get out "primaryGenre" = Ok (JStr "Unknown").
Proof.
  destruct (enhance_well_typed (E := IntEngine) (Some 0) scenario_3_record eq_refl)
    as (out & Hout).
  exists (JObj out). split; [exact Hout|].
  destruct (enhance_fields _ _ _ Hout) as (Ha & _ & Hp & _ & Hg & Hu).
  rewrite Ha, Hp, Hg, Hu. repeat split.
Qed.

(** C6, as stated, fails on [?term=Adele&media=&entity=movie]: the
    query is valid, the supplied media is the empty string, which has
    no entity set, and the URL carries [entity=movie] all the same. *)
Lemma empty_media_counts_as_all :
  validateSearchParams empty_media_with_entity
  = Ok {| isValid := true; errors := [] |}
  /\ ~ entity_filter_as_stated empty_media_with_entity.
Proof.
  split; [reflexivity|].
  intros (url & Hurl & Hiff).
  assert (Hbuilt : buildItunesUrl empty_media_with_entity
    = Ok "https://itunes.apple.com/search?term=Adele&media=all&limit=50&country=US&explicit=Yes&entity=movie")
    by reflexivity.
  rewrite Hbuilt in Hurl. injection Hurl as <-.
  assert (Hin : In "entity"
    (param_names "https://itunes.apple.com/search?term=Adele&media=all&limit=50&country=US&explicit=Yes&entity=movie")).
  { cbv. tauto. }
  apply Hiff in Hin. destruct Hin as (e & He & Hin).
  change (In e (entity_set "")) in Hin.
  replace (entity_set "") with (@nil string) in Hin by reflexivity.
  exact Hin.
Qed.

(** Scenario 5: the entity "podcast" is dropped for the media "music". *)
Lemma entity_only_when_compatible_podcast :
  string_params podcast_in_music = true
  /\ validateSearchParams podcast_in_music = Ok {| isValid := true; errors := [] |}
  /\ exists url, buildItunesUrl podcast_in_music = Ok url
       /\ ~ In "entity" (param_names url).
Proof.
  split; [reflexivity|]. split; [reflexivity|].
  destruct (entity_only_when_compatible podcast_in_music _ eq_refl eq_refl eq_refl)
    as (url & Hu & _ & Hno).
  exists url. split; [exact Hu|]. apply Hno; reflexivity.
Defined.

(** A padded term is trimmed, its inner space written as [+], and the
    absent media, limit and explicit take their defaults. *)
Lemma builder_defaults_and_order_padded :
  buildItunesUrl padded_term
  = Ok "https://itunes.apple.com/search?term=Daft+Punk&media=all&limit=50&country=FR&explicit=Yes".
Proof.
  destruct builder_defaults_and_order as [_ H].
  unfold padded_term, params_of, no_value.
  rewrite (H "  Daft Punk " JUndefined JUndefined (JStr "FR") JUndefined
             eq_refl eq_refl eq_refl eq_refl).
  reflexivity.
Defined.


End Checks.

(** ** The rest of the search route: proofs *)

Section RouteProofs.
Context {E : JsEnv}.

(** *** The built URL *)

Lemma all_bytes_app (f : ascii -> bool) (s t : string) :
  all_bytes f (s ++ t) = all_bytes f s && all_bytes f t.
Proof.
  unfold all_bytes. induction s as [|a s IH]; [reflexivity|].
  rewrite append_cons. cbn [list_ascii_of_string forallb].
  rewrite IH. apply andb_assoc.
Qed.

Lemma urlencode_byte_url_bytes (a : ascii) :
  all_bytes url_byte (urlencode_byte a) = true.
Proof. destruct a as [[] [] [] [] [] [] [] []]; reflexivity. Qed.

Lemma urlencode_url_bytes (s : string) : all_bytes url_byte (urlencode s) = true.
Proof.
  induction s as [|a s IH]; [reflexivity|]. cbn [urlencode].
  rewrite all_bytes_app, urlencode_byte_url_bytes, IH. reflexivity.
Qed.

Lemma serialize_params_url_bytes (sp : list (string * string)) :
  all_bytes url_byte (serialize_params sp) = true.
Proof.
  induction sp as [|[k v] sp IH]; [reflexivity|].
  destruct sp as [|kv sp].
  - cbn [serialize_params].
    rewrite !all_bytes_app, !urlencode_url_bytes. reflexivity.
  - change (serialize_params ((k, v) :: kv :: sp))
      with (urlencode k ++ "=" ++ urlencode v ++ "&" ++ serialize_params (kv :: sp)).
    rewrite !all_bytes_app, !urlencode_url_bytes, IH. reflexivity.
Qed.

(** X1: whatever the query holds, a URL that the builder returns is
    made of ASCII letters, digits and the marks [* - . _ + % & = ? : /]
    only: no space, no control or non-ASCII byte, no quote or bracket
    reaches the upstream request line. *)
Theorem built_url_is_ascii_safe (p : SearchParams) (url : string) :
  buildItunesUrl p = Ok url -> all_bytes url_byte url = true.
Proof.
  unfold buildItunesUrl. destruct (buildItunesParams p) as [sp|e]; [|discriminate].
  cbn [bind]. intros H. injection H as <-.
  rewrite !all_bytes_app, serialize_params_url_bytes. reflexivity.
Qed.

Lemma urldecode_byte (a : ascii) (t : string) :
  urldecode (urlencode_byte a ++ t) = String a (urldecode t).
Proof. destruct a as [[] [] [] [] [] [] [] []]; reflexivity. Qed.

Lemma urldecode_urlencode (s : string) : urldecode (urlencode s) = s.
Proof.
  assert (H : forall t, urldecode (urlencode s ++ t) = s ++ urldecode t).
  { induction s as [|a s IH]; intros t; [reflexivity|].
    cbn [urlencode]. rewrite append_associative, urldecode_byte, IH.
    reflexivity. }
  specialize (H ""). rewrite append_empty_r in H. rewrite H.
  apply append_empty_r.
Qed.

Lemma parse_pair_encoded (k v : string) :
  parse_pair (urlencode k ++ "=" ++ urlencode v) = (k, v).
Proof.
  unfold parse_pair.
  change (urlencode k ++ "=" ++ urlencode v)
    with (urlencode k ++ String "=" (urlencode v)).
  rewrite split_on_app by (apply urlencode_clean; unfold separator; tauto).
  rewrite split_on_absent by (apply urlencode_clean; unfold separator; tauto).
  rewrite !urldecode_urlencode. reflexivity.
Qed.

Lemma parse_query_serialized (sp : list (string * string)) :
  sp <> [] -> parse_query (serialize_params sp) = sp.
Proof.
  intros Hsp. unfold parse_query.
  rewrite (split_serialize_params sp Hsp), map_map.
  rewrite <- (map_id sp) at 2. apply map_ext.
  intros [k v]. apply parse_pair_encoded.
Qed.

Lemma query_of_built (sp : list (string * string)) :
  query_of (ITUNES_SEARCH_ENDPOINT ++ "?" ++ serialize_params sp)
  = serialize_params sp.
Proof.
  unfold query_of.
  change (ITUNES_SEARCH_ENDPOINT ++ "?" ++ serialize_params sp)
    with ("https://itunes.apple.com/search" ++ String "?" (serialize_params sp)).
  rewrite split_on_app by reflexivity.
  rewrite (split_on_absent _ _ (serialize_params_no_question sp)).
  reflexivity.
Qed.

Lemma buildItunesParams_nonempty (p : SearchParams) (sp : list (string * string)) :
  buildItunesParams p = Ok sp -> sp <> [].
Proof.
  unfold buildItunesParams, append.
  destruct (call_trim (term p)) as [t|]; [|discriminate]. cbn [bind to_string].
  destruct (to_string (js_or (media p) (JStr "all"))) as [m|]; [|discriminate].
  cbn [bind].
  destruct (to_string (js_or (limit p) (JStr "50"))) as [l|]; [|discriminate].
  cbn [bind].
  destruct (to_string (js_or (country p) (JStr "US"))) as [c|]; [|discriminate].
  cbn [bind].
  destruct (to_string (js_or (explicit p) (JStr "Yes"))) as [x|]; [|discriminate].
  cbn [bind].
  destruct (truthy (entity p)).
  - destruct (validEntities _) as [l'|]; [|discriminate]. cbn [bind].
    destruct (includes l' (entity p)).
    + destruct (to_string (entity p)) as [e|]; [|discriminate]. cbn [bind].
      intros H. injection H as <-. discriminate.
    + intros H. injection H as <-. discriminate.
  - intros H. injection H as <-. discriminate.
Qed.

(** X2: the parameters that the builder appended can be read back from
    the URL: decoding its query string gives them again, names and
    values, in order; hence two queries are sent to the same URL only
    when the builder appended the same parameters for both. *)
Theorem built_url_round_trip (p : SearchParams) (url : string) :
  buildItunesUrl p = Ok url ->
  buildItunesParams p = Ok (parse_query (query_of url))
  /\ forall p', buildItunesUrl p' = Ok url ->
       buildItunesParams p' = buildItunesParams p.
Proof.
  assert (Hread : forall q u, buildItunesUrl q = Ok u ->
            buildItunesParams q = Ok (parse_query (query_of u))).
  { intros q u. unfold buildItunesUrl.
    destruct (buildItunesParams q) as [sp|e] eqn:Hsp; [|discriminate].
    cbn [bind]. intros H. injection H as <-.
    rewrite query_of_built, parse_query_serialized; [reflexivity|].
    apply (buildItunesParams_nonempty q sp Hsp). }
  intros H. split; [apply Hread, H|].
  intros p' H'. rewrite (Hread _ _ H), (Hread _ _ H'). reflexivity.
Qed.

(** *** The handler *)

(** X3: a request causes no upstream call at all, or exactly one: the
    call is made when the parameters are valid and the URL is built,
    it goes to that URL with the timeout of 10000 ms, and it is never
    repeated, whatever its outcome. *)
Theorem one_upstream_call_at_most (w : World) (query : gmap string JsVal) :
  upstream_calls (fst (search_handler w query))
  = match validateSearchParams (searchParams_of query),
          buildItunesUrl (searchParams_of query) with
    | Ok v, Ok url => if isValid v then [(url, 10000)] else []
    | _, _ => []
    end.
Proof.
  unfold search_handler, search_try.
  destruct (validateSearchParams (searchParams_of query)) as [v|e]; [|reflexivity].
  cbn [lift eff_bind]. destruct (isValid v); cbn [negb].
  - destruct (buildItunesUrl (searchParams_of query)) as [url|e];
      [|reflexivity].
    cbn [lift eff_bind emit app].
    destruct (axios_get w url) as [data|e]; [|reflexivity].
    cbn [eff_bind app].
    destruct (processItunesResponse (clock w) (now_iso w) data) as [pd|e];
      [|reflexivity].
    cbn [eff_bind app].
    destruct (success_response w (searchParams_of query) pd); reflexivity.
  - destruct (buildItunesUrl (searchParams_of query)); reflexivity.
Qed.

Lemma error_response_details (dev : bool) (e : JsError) :
  field (error_response dev e) "details" <> JUndefined ->
  dev = true /\ status (error_response dev e) = 500.
Proof.
  unfold error_response.
  destruct (code_is e "ECONNABORTED" || code_is e "ETIMEDOUT");
    [intros H; contradiction H; reflexivity|].
  destruct (match err_status e with Some s => s =? 403 | None => false end);
    [intros H; contradiction H; reflexivity|].
  destruct (match err_status e with
            | Some s => (400 <=? s) && (s <? 500)
            | None => false
            end);
    [intros H; contradiction H; reflexivity|].
  destruct dev; [intros _; split; reflexivity|].
  intros H; contradiction H; reflexivity.
Qed.

(** X4: the response of the search route carries a [details] field
    (the message of the caught error) only when [NODE_ENV] is
    ['development'] and the status is 500; no 400, 408, 503 or 200
    response and no response outside development discloses it. *)
Theorem error_detail_only_in_development (w : World) (query : gmap string JsVal) :
  field (snd (search_handler w query)) "details" <> JUndefined ->
  development w = true /\ status (snd (search_handler w query)) = 500.
Proof.
  unfold search_handler.
  destruct (search_try w query) as [evs [res|e]] eqn:Htry; cbn [snd];
    [|apply error_response_details].
  intros H. exfalso. apply H. clear H.
  unfold search_try in Htry.
  destruct (validateSearchParams (searchParams_of query)) as [v|e];
    [|discriminate Htry].
  cbn [lift eff_bind] in Htry. destruct (isValid v); cbn [negb] in Htry.
  - destruct (buildItunesUrl (searchParams_of query)) as [url|e];
      [|discriminate Htry].
    cbn [lift eff_bind emit app] in Htry.
    destruct (axios_get w url) as [data|e]; [|discriminate Htry].
    cbn [eff_bind app] in Htry.
    destruct (processItunesResponse (clock w) (now_iso w) data) as [pd|e];
      [|discriminate Htry].
    cbn [eff_bind app] in Htry.
    unfold success_response in Htry.
    destruct (echoed_limit (limit (searchParams_of query))) as [l|e];
      [|discriminate Htry].
    cbn [bind] in Htry. injection Htry as _ <-. reflexivity.
  - cbn [emit eff_bind eff_ret app] in Htry. injection Htry as _ <-.
    reflexivity.
Qed.

Lemma echoed_limit_string (l : JsVal) :
  absent_or_string l = true ->
  exists n, echoed_limit l = Ok (JNum (num_of_Z n))
            /\ n = match l with
                   | JStr s => match parseInt s with
                               | Some k => if k =? 0 then 50 else k
                               | None => 50
                               end
                   | _ => 50
                   end.
Proof.
  destruct l as [| |b|n|s|xs|props]; try discriminate; intros _.
  - exists 50. split; reflexivity.
  - unfold echoed_limit. cbn [to_string bind].
    destruct (parseInt s) as [k|]; eexists; split; reflexivity.
Qed.

(** X5: when the parameters are valid, the upstream call resolves and
    its body is normalized, the route answers 200 with [success: true]
    and the normalized body as [data], after exactly the events
    request log, upstream call, completion log; the echoed
    [searchParams] hold the term as received and the effective media
    and country. *)
Theorem search_success (w : World) (query : gmap string JsVal) (v : Validation)
    (url : string) (data processed : JsVal) :
  string_params (searchParams_of query) = true ->
  validateSearchParams (searchParams_of query) = Ok v -> isValid v = true ->
  buildItunesUrl (searchParams_of query) = Ok url ->
  axios_get w url = Ok data ->
  processItunesResponse (clock w) (now_iso w) data = Ok processed ->
  let res := snd (search_handler w query) in
  fst (search_handler w query)
  = [ LogInfo "iTunes API search request"; AxiosGet url 10000;
      LogInfo "iTunes API search completed" ]
  /\ status res = 200
  /\ field res "success" = JBool true
  /\ field res "data" = processed
  /\ field res "error" = JUndefined
  /\ exists echo, field res "searchParams" = JObj echo
       /\ echo !! "term" = Some (term (searchParams_of query))
       /\ echo !! "media"
          = Some (JStr (effective_media (searchParams_of query)))
       /\ echo !! "country"
          = Some (JStr (string_or (country (searchParams_of query)) "US")).
Proof.
  intros Hp Hv Hi Hu Hd Hpd.
  pose proof (search_try_valid w query v url Hv Hi Hu) as Htry.
  cbv zeta in Htry. rewrite Hd, Hpd in Htry.
  unfold string_params in Hp. rewrite !andb_true_iff in Hp.
  destruct Hp as [[[[[_ Hm] Hl] Hc] _] _].
  destruct (echoed_limit_string _ Hl) as (n & Hn & _).
  unfold success_response in Htry. rewrite Hn in Htry. cbn [bind] in Htry.
  unfold search_handler. rewrite Htry. cbn [fst snd app].
  split; [reflexivity|]. split; [reflexivity|]. split; [reflexivity|].
  split; [reflexivity|]. split; [reflexivity|].
  eexists. split; [reflexivity|].
  split; [reflexivity|].
  rewrite (js_or_media _ Hm).
  split; [reflexivity|].
  destruct (country (searchParams_of query)) as [| |b|k|s|xs|props];
    try discriminate Hc; [reflexivity|].
  destruct s; reflexivity.
Qed.

(** X6: a valid, non-empty limit is forwarded upstream as the text that
    was received, while the response echoes the integer that
    [parseInt] read from it, which lies in [1,200]: for the limit
    "5abc" the upstream URL has [limit=5abc] and the echo is 5. *)
Theorem limit_forwarded_verbatim (p : SearchParams) (v : Validation) (s : string) :
  string_params p = true ->
  validateSearchParams p = Ok v -> isValid v = true ->
  limit p = JStr s -> s <> "" ->
  exists n sp, parseInt s = Some n /\ 1 <= n <= 200
    /\ echoed_limit (limit p) = Ok (JNum (num_of_Z n))
    /\ buildItunesParams p = Ok sp /\ In ("limit", s) sp.
Proof.
  intros Hp Hv Hi Hl Hs.
  destruct (validateSearchParams_strings p Hp) as (errs & Hv' & _ & _ & Hlim & _).
  rewrite Hv in Hv'. injection Hv' as ->. simpl in Hi.
  apply valid_iff_no_error in Hi. subst errs.
  assert (Hok : exists n, parseInt s = Some n /\ 1 <= n <= 200).
  { destruct (parseInt s) as [n|] eqn:Hn.
    - destruct (Z_le_dec 1 n) as [H1|H1]; [destruct (Z_le_dec n 200) as [H2|H2]|].
      + exists n. auto.
      + exfalso. apply Hlim. exists s. split; [exact Hl|]. split; [exact Hs|].
        intros (k & Hk & Hr). rewrite Hn in Hk. injection Hk as <-. lia.
      + exfalso. apply Hlim. exists s. split; [exact Hl|]. split; [exact Hs|].
        intros (k & Hk & Hr). rewrite Hn in Hk. injection Hk as <-. lia.
    - exfalso. apply Hlim. exists s. split; [exact Hl|]. split; [exact Hs|].
      intros (k & Hk & _). rewrite Hn in Hk. discriminate Hk. }
  destruct Hok as (n & Hn & Hr).
  destruct (validated_params p {| isValid := true; errors := [] |} Hp Hv eq_refl)
    as (Hm & t & Ht).
  exists n, (base_params p t ++ entity_param p)%list.
  split; [exact Hn|]. split; [exact Hr|]. split; [|split].
  - rewrite Hl. unfold echoed_limit. cbn [to_string bind]. rewrite Hn.
    replace (n =? 0) with false by lia. reflexivity.
  - apply (buildItunesParams_strings p t Hp Ht Hm).
  - apply in_or_app. left. unfold base_params. rewrite Hl.
    destruct s; [contradiction|]. simpl. tauto.
Qed.

(** *** Queries of any shape *)

Lemma push_if_nil (c : bool) (msg : string) (errs : list string) :
  push_if c msg errs = [] -> c = false /\ errs = [].
Proof.
  unfold push_if. destruct c; [|auto].
  intros H. destruct errs; discriminate H.
Qed.

(** What a successful validation has checked, whatever the fields hold. *)
Lemma validateSearchParams_accepts (p : SearchParams) (v : Validation) :
  validateSearchParams p = Ok v -> isValid v = true ->
  term_rejected (term p) = false
  /\ truthy (media p) && negb (includes VALID_MEDIA_TYPES (media p)) = false
  /\ (truthy (limit p) = true -> exists s, to_string (limit p) = Ok s)
  /\ (truthy (country p) = true -> exists s, to_string (country p) = Ok s).
Proof.
  unfold validateSearchParams. cbv zeta. intros Hv Hi.
  set (errs2 := push_if _ MEDIA_ERROR _) in Hv.
  assert (H3 : exists errs3,
            (if truthy (limit p)
             then s <- to_string (limit p) ;;
                  Ok (push_if (limit_rejected (parseInt s)) LIMIT_ERROR errs2)
             else Ok errs2) = Ok errs3
            /\ (errs3 = [] -> errs2 = [])
            /\ (truthy (limit p) = true -> exists s, to_string (limit p) = Ok s)).
  { destruct (truthy (limit p)).
    - destruct (to_string (limit p)) as [s|e] eqn:Hs; [|discriminate Hv].
      cbn [bind]. eexists. split; [reflexivity|]. split; [|eauto].
      intros H. apply push_if_nil in H. tauto.
    - eexists. split; [reflexivity|]. split; [auto | discriminate]. }
  destruct H3 as (errs3 & E3 & N3 & L3). rewrite E3 in Hv. cbn [bind] in Hv.
  assert (H4 : exists errs4,
            (if truthy (country p)
             then s <- to_string (country p) ;;
                  Ok (push_if (negb (test_country_code s)) COUNTRY_ERROR errs3)
             else Ok errs3) = Ok errs4
            /\ (errs4 = [] -> errs3 = [])
            /\ (truthy (country p) = true -> exists s, to_string (country p) = Ok s)).
  { destruct (truthy (country p)).
    - destruct (to_string (country p)) as [s|e] eqn:Hs; [|discriminate Hv].
      cbn [bind]. eexists. split; [reflexivity|]. split; [|eauto].
      intros H. apply push_if_nil in H. tauto.
    - eexists. split; [reflexivity|]. split; [auto | discriminate]. }
  destruct H4 as (errs4 & E4 & N4 & L4). rewrite E4 in Hv. cbn [bind] in Hv.
  injection Hv as <-. cbn [isValid] in Hi.
  apply valid_iff_no_error in Hi.
  apply N4, N3 in Hi. subst errs2.
  apply push_if_nil in Hi as [Hm Hi]. apply push_if_nil in Hi as [Ht _].
  auto.
Qed.

Lemma append_Ok (sp : list (string * string)) (k : string) (v : JsVal) :
  (exists s, to_string v = Ok s) -> exists sp', append sp k v = Ok sp'.
Proof. intros (s & Hs). unfold append. rewrite Hs. cbn [bind]. eauto. Qed.

Lemma js_or_convertible (v : JsVal) (d : string) :
  (truthy v = true -> exists s, to_string v = Ok s) ->
  exists s, to_string (js_or v (JStr d)) = Ok s.
Proof.
  intros H. unfold js_or. destruct (truthy v); [auto|].
  exists d. reflexivity.
Qed.

(** X7: a query that passes validation cannot make the builder fail
    on its term, media, limit, country or entity, whatever these fields
    are (strings, arrays or objects, as a parsed query string may
    hold): the URL is built as soon as [explicit], the one field that
    is sent without validation, converts to a string. *)
Theorem validated_query_builds (p : SearchParams) (v : Validation) :
  validateSearchParams p = Ok v -> isValid v = true ->
  (exists s, to_string (js_or (explicit p) (JStr "Yes")) = Ok s) ->
  exists url, buildItunesUrl p = Ok url.
Proof.
  intros Hv Hi Hx.
  destruct (validateSearchParams_accepts p v Hv Hi) as (Ht & Hm & Hl & Hc).
  assert (Hterm : exists t, call_trim (term p) = Ok t).
  { unfold term_rejected in Ht. apply orb_false_iff in Ht as [_ Ht].
    destruct (term p); try discriminate Ht. cbn. eauto. }
  assert (Hmedia : exists m, js_or (media p) (JStr "all") = JStr m
                             /\ In m VALID_MEDIA_TYPES).
  { unfold js_or. destruct (truthy (media p)) eqn:Htm.
    - cbn [andb] in Hm. apply negb_false_iff in Hm.
      destruct (media p) as [| |b|n|s|xs|props]; try discriminate Hm.
      exists s. split; [reflexivity | apply mem_In, Hm].
    - exists "all". split; [reflexivity | left; reflexivity]. }
  destruct Hterm as (t & Et), Hmedia as (m & Em & Hin).
  unfold buildItunesUrl, buildItunesParams. rewrite Et. cbn [bind].
  change (append [] "term" (JStr t)) with (Ok [("term", t)]). cbn [bind].
  rewrite Em.
  change (append [("term", t)] "media" (JStr m))
    with (Ok [("term", t); ("media", m)]). cbn [bind].
  destruct (append_Ok [("term", t); ("media", m)] "limit" _
              (js_or_convertible _ "50" Hl)) as (sp3 & ->). cbn [bind].
  destruct (append_Ok sp3 "country" _ (js_or_convertible _ "US" Hc))
    as (sp4 & ->). cbn [bind].
  destruct (append_Ok sp4 "explicit" _ Hx) as (sp5 & ->). cbn [bind].
  destruct (truthy (entity p)); [|cbn [bind]; eauto].
  rewrite (validEntities_valid m Hin). cbn [bind].
  destruct (includes (entity_set m) (entity p)) eqn:Hinc; [|cbn [bind]; eauto].
  destruct (entity p) as [| |b|n|s|xs|props]; try discriminate Hinc.
  unfold append. cbn [to_string bind]. eauto.
Qed.

(** *** The normalizer *)

Lemma or_else_truthy (r k : Result JsVal) (v : JsVal) :
  or_else r k = Ok v ->
  (forall v', k = Ok v' -> truthy v' = true) -> truthy v = true.
Proof.
  unfold or_else. destruct r as [x|e]; [|discriminate]. cbn [bind].
  destruct (truthy x) eqn:Hx.
  - intros H _. injection H as <-. exact Hx.
  - intros H Hk. apply Hk, H.
Qed.

Lemma Ok_truthy (v : JsVal) :
  truthy v = true -> forall v', Ok v = Ok v' -> truthy v' = true.
Proof. intros Hv v' H. injection H as <-. exact Hv. Qed.

(** X8: every normalized item has a truthy mediaType and primaryGenre
    (at worst "unknown" and "Unknown"), a formattedPrice that is a
    string and a releaseDate that is null or a string; its uniqueId is
    truthy as soon as the clock reading is. *)
Theorem normalized_fields_present (now : number) (item out : JsVal) :
  enhance now item = Ok out ->
  (exists m, get out "mediaType" = Ok m /\ truthy m = true)
  /\ (exists g, get out "primaryGenre" = Ok g /\ truthy g = true)
  /\ (exists f, get out "formattedPrice" = Ok (JStr f))
  /\ (get out "releaseDate" = Ok JNull
      \/ exists d, get out "releaseDate" = Ok (JStr d))
  /\ (num_truthy now = true ->
      exists u, get out "uniqueId" = Ok u /\ truthy u = true).
Proof.
  intros H.
  destruct (enhance_inv now _ _ H)
    as (a & r & f & m & g & u & _ & Hr & Hf & Hm & Hg & Hu & _).
  destruct (enhance_fields now _ _ H) as (_ & Er & Ef & Em & Eg & Eu).
  rewrite Er, Ef, Em, Eg, Eu, Hr, Hf, Hm, Hg, Hu.
  split; [|split; [|split; [|split]]].
  - exists m. split; [reflexivity|].
    apply (or_else_truthy _ _ _ Hm). intros v' Hv'.
    apply (or_else_truthy _ _ _ Hv').
    apply (Ok_truthy (JStr "unknown") eq_refl).
  - exists g. split; [reflexivity|].
    apply (or_else_truthy _ _ _ Hg). intros v' Hv'.
    apply (or_else_truthy _ _ _ Hv').
    apply (Ok_truthy (JStr "Unknown") eq_refl).
  - unfold formattedPrice_of in Hf.
    destruct (get item "trackPrice") as [p|]; [|discriminate Hf].
    cbn [bind] in Hf. destruct (truthy p).
    + destruct (to_string p) as [s|]; [|discriminate Hf].
      injection Hf as <-. eauto.
    + destruct (get item "collectionPrice") as [c|]; [|discriminate Hf].
      cbn [bind] in Hf. destruct (truthy c).
      * destruct (to_string c) as [s|]; [|discriminate Hf].
        injection Hf as <-. eauto.
      * injection Hf as <-. eauto.
  - unfold releaseDate_of in Hr.
    destruct (get item "releaseDate") as [d|]; [|discriminate Hr].
    cbn [bind] in Hr. destruct (truthy d).
    + destruct (new_Date d) as [t|]; [|discriminate Hr].
      injection Hr as <-. eauto.
    + injection Hr as <-. auto.
  - intros Hnow. exists u. split; [reflexivity|].
    apply (or_else_truthy _ _ _ Hu). intros v1 H1.
    apply (or_else_truthy _ _ _ H1). intros v2 H2.
    apply (or_else_truthy _ _ _ H2). apply (Ok_truthy (JNum now) Hnow).
Qed.

Lemma processItunesResponse_no_results (clock : nat -> number) (searchedAt : string)
    (d : gmap string JsVal) :
  truthy (default JUndefined (d !! "results")) = false ->
  processItunesResponse clock searchedAt (JObj d)
  = (let resultCount :=
       js_or (default JUndefined (d !! "resultCount")) (JNum (num_of_Z 0)) in
     hasResults <- gt_zero resultCount ;;
     Ok (object
           [ ("resultCount", resultCount);
             ("results", JArr []);
             ("searchInfo",
               object [ ("totalResults", resultCount);
                        ("hasResults", JBool hasResults);
                        ("searchedAt", JStr searchedAt) ]) ])).
Proof.
  intros Hr. unfold processItunesResponse. cbn [get bind].
  unfold js_or at 1. rewrite Hr. reflexivity.
Qed.

(** X9: the normalizer needs [results] to be an array or falsy: a body
    without [results] (or with a null or empty one) gives an empty
    result list, a body whose [results] is any other value, and a body
    that is [null] or [undefined] itself, make it throw a [TypeError]
    (which the route answers with 500). *)
Theorem results_must_be_an_array (clock : nat -> number) (searchedAt : string)
    (d : gmap string JsVal) :
  (truthy (default JUndefined (d !! "results")) = false ->
   primitive (d !! "resultCount") = true ->
   exists resp, processItunesResponse clock searchedAt (JObj d) = Ok resp
     /\ get resp "results" = Ok (JArr []))
  /\ (truthy (default JUndefined (d !! "results")) = true ->
      (forall xs, d !! "results" <> Some (JArr xs)) ->
      exists e, processItunesResponse clock searchedAt (JObj d) = Throw e
                /\ plain e)
  /\ (exists e, processItunesResponse clock searchedAt JNull = Throw e /\ plain e)
  /\ (exists e, processItunesResponse clock searchedAt JUndefined = Throw e
                /\ plain e).
Proof.
  split; [|split; [|split]].
  - intros Hr Hc. rewrite (processItunesResponse_no_results _ _ _ Hr). cbv zeta.
    destruct (gt_zero_primitive _ (js_or_primitive _ (num_of_Z 0) Hc)) as (b & ->).
    eexists. split; reflexivity.
  - intros Hr Hna. unfold processItunesResponse. cbn [get bind].
    unfold js_or at 1. rewrite Hr.
    destruct (d !! "results") as [[| |b|n|s|xs|props]|] eqn:Hd;
      cbn [from_option id bind] in *;
      try (eexists; split; [reflexivity | split; reflexivity]);
      try discriminate Hr.
    exfalso. apply (Hna xs). reflexivity.
  - eexists. split; [reflexivity | split; reflexivity].
  - eexists. split; [reflexivity | split; reflexivity].
Qed.

(** X10: [resultCount] is passed through, never counted: a body whose
    [results] hold items but that has no (or a zero) [resultCount]
    normalizes to [resultCount] 0 and keeps all its items. *)
Theorem resultCount_is_not_recounted (clock : nat -> number) (searchedAt : string)
    (d : gmap string JsVal) (rs : list JsVal) (resp : JsVal) :
  d !! "results" = Some (JArr rs) ->
  truthy (default JUndefined (d !! "resultCount")) = false ->
  processItunesResponse clock searchedAt (JObj d) = Ok resp ->
  get resp "resultCount" = Ok (JNum (num_of_Z 0))
  /\ exists outs, get resp "results" = Ok (JArr outs)
                  /\ length outs = length rs.
Proof.
  intros Hrs Hc H. rewrite (processItunesResponse_array _ _ _ _ Hrs) in H.
  destruct (map_enhance clock 0 rs) as [outs|] eqn:Hm; [|discriminate H].
  cbn [bind] in H. cbv zeta in H. unfold js_or in H. rewrite Hc in H.
  destruct (gt_zero _) as [b|]; [|discriminate H].
  cbn [bind] in H. injection H as <-.
  split; [reflexivity|]. exists outs. split; [reflexivity|].
  apply (map_enhance_pointwise clock rs 0 outs Hm).
Qed.

End RouteProofs.

(** ** The lookup route: proofs *)

Section LookupProofs.
Context {E : JsEnv} {N : JsNumbers}.

Lemma digit_cases (a : ascii) :
  in_range 48 57 a = true ->
  In a ["0"; "1"; "2"; "3"; "4"; "5"; "6"; "7"; "8"; "9"]%char.
Proof.
  destruct a as [[] [] [] [] [] [] [] []]; intros H;
    try discriminate H; simpl; tauto.
Qed.

Lemma digits_plain (s : string) :
  all_bytes (in_range 48 57) s = true ->
  urldecode s = s
  /\ (forall c, in_range 48 57 c = false -> occurs c s = false).
Proof.
  unfold all_bytes. induction s as [|a s IH]; [intros _; split; reflexivity|].
  cbn [list_ascii_of_string forallb]. rewrite andb_true_iff. intros [Ha Hs].
  destruct (IH Hs) as [Hd Ho]. split.
  - apply digit_cases in Ha. simpl in Ha.
    repeat (destruct Ha as [<-|Ha]; [cbn [urldecode]; rewrite Hd; reflexivity|]).
    contradiction.
  - intros c Hc. cbn [occurs]. rewrite (Ho c Hc), orb_false_r.
    destruct (Ascii.eqb a c) eqn:Heq; [|reflexivity].
    apply Ascii.eqb_eq in Heq. subst c. congruence.
Qed.

Lemma test_digits_all (s : string) :
  test_digits s = true -> all_bytes (in_range 48 57) s = true /\ s <> "".
Proof. destruct s; [discriminate|]. intros H. split; [exact H | discriminate]. Qed.

(** X11: an item id that is empty or holds anything but the digits 0-9
    is answered 400 "Invalid ID" with no event at all; a valid id
    causes exactly one upstream call, to [.../lookup?id=<id>] with the
    timeout of 10000 ms; the id is written into the URL as it is, and
    reading the query string back gives the one parameter [id]. *)
Theorem lookup_id_is_checked (w : World) (itemId : string) :
  (test_digits itemId = false ->
   lookup_handler w itemId
   = ([], failure 400 "Invalid ID" "Item ID must be a valid number"))
  /\ (test_digits itemId = true ->
      upstream_calls (fst (lookup_handler w itemId))
      = [("https://itunes.apple.com/lookup?id=" ++ itemId, 10000)]
      /\ parse_query (query_of (lookup_url itemId)) = [("id", itemId)]).
Proof.
  split.
  - intros H. unfold lookup_handler, lookup_try. rewrite H.
    rewrite orb_true_r. reflexivity.
  - intros H. destruct (test_digits_all _ H) as [Hd Hne].
    destruct (digits_plain _ Hd) as [Hdec Hocc]. split.
    + unfold lookup_handler, lookup_try. rewrite H.
      replace (String.eqb itemId "") with false
        by (symmetry; apply String.eqb_neq; exact Hne).
      cbn [negb orb emit eff_bind lift app].
      destruct (axios_get w (lookup_url itemId)) as [data|e]; [|reflexivity].
      cbn [eff_bind app].
      destruct (processItunesResponse (clock w) (now_iso w) data) as [pd|e];
        [|reflexivity].
      cbn [eff_bind app].
      destruct (get pd "resultCount") as [rc|e]; [|reflexivity].
      cbn [eff_bind app].
      destruct (strict_equal rc (JNum (num_of_Z 0))); reflexivity.
    + unfold query_of, lookup_url.
      change (ITUNES_LOOKUP_ENDPOINT ++ "?id=" ++ itemId)
        with ("https://itunes.apple.com/lookup" ++ String "?" ("id=" ++ itemId)).
      rewrite split_on_app by reflexivity.
      assert (Hq : occurs "?" ("id=" ++ itemId) = false).
      { cbn [occurs]. cbn. apply Hocc. reflexivity. }
      rewrite (split_on_absent _ _ Hq).
      unfold parse_query.
      assert (Ha : occurs "&" ("id=" ++ itemId) = false).
      { cbn. apply Hocc. reflexivity. }
      rewrite (split_on_absent _ _ Ha). cbn [map]. unfold parse_pair.
      change ("id=" ++ itemId) with ("id" ++ String "=" itemId).
      rewrite split_on_app by reflexivity.
      rewrite split_on_absent by (apply Hocc; reflexivity).
      rewrite Hdec. reflexivity.
Qed.


Lemma lookup_try_valid (w : World) (itemId : string) :
  test_digits itemId = true ->
  lookup_try w itemId
  = (emit (LogInfo "iTunes API lookup request") ;;;
     emit (AxiosGet (lookup_url itemId) 10000) ;;;
     data <~ lift (axios_get w (lookup_url itemId)) ;;
     processedData <~ lift (processItunesResponse (clock w) (now_iso w) data) ;;
     resultCount <~ lift (get processedData "resultCount") ;;
     if strict_equal resultCount (JNum (num_of_Z 0)) then
       eff_ret (failure 404 "Not Found" ("No item found with ID: " ++ itemId))
     else
       emit (LogInfo "iTunes API lookup completed") ;;;
       eff_ret (lookup_success w processedData)).
Proof.
  intros H. destruct (test_digits_all _ H) as [_ Hne].
  unfold lookup_try. rewrite H.
  replace (String.eqb itemId "") with false
    by (symmetry; apply String.eqb_neq; exact Hne).
  reflexivity.
Qed.


(** X13: every failure of a lookup, a timeout or an upstream 403 or
    4xx as much as an exception of the normalizer, is answered 500
    "Lookup Failed" without details: the lookup route has none of the
    408, 503 and 400 mappings of the search route. *)
Theorem lookup_failures_are_500 (w : World) (itemId : string) (e : JsError) :
  test_digits itemId = true ->
  axios_get w (lookup_url itemId) = Throw e
  \/ (exists data, axios_get w (lookup_url itemId) = Ok data
        /\ processItunesResponse (clock w) (now_iso w) data = Throw e) ->
  let res := snd (lookup_handler w itemId) in
  responds res 500 "Lookup Failed" /\ field res "details" = JUndefined.
Proof.
  intros Hid H. cbv zeta.
  unfold lookup_handler. rewrite (lookup_try_valid w itemId Hid).
  cbn [emit eff_bind lift app].
  destruct H as [H | (data & Hd & Hp)].
  - rewrite H. repeat split.
  - rewrite Hd. cbn [eff_bind app]. rewrite Hp. repeat split.
Qed.

End LookupProofs.

(** ** The middleware: proofs *)

Section AuthProofs.
Context {E : JsEnv} {N : JsNumbers}.

(** X14: the token is the second of the pieces that the spaces of the
    Authorization header delimit: the first piece (the scheme) is not
    looked at, so [Basic <jwt>] is read like [Bearer <jwt>], what
    follows a second space is ignored, and an empty second piece, as in
    a header with two spaces after [Bearer], counts as no token. *)
Theorem token_is_second_piece (scheme tok rest : string) :
  occurs " " scheme = false -> occurs " " tok = false ->
  rest = "" \/ (exists r, rest = String " " r) ->
  bearer_token (Some (scheme ++ " " ++ tok ++ rest))
  = if String.eqb tok "" then None else Some tok.
Proof.
  intros Hs Ht Hr. unfold bearer_token.
  change (scheme ++ " " ++ tok ++ rest) with (scheme ++ String " " (tok ++ rest)).
  rewrite (split_on_app _ _ _ Hs).
  assert (Hsplit : exists tl, split_on " " (tok ++ rest) = tok :: tl).
  { destruct Hr as [-> | (r & ->)].
    - rewrite append_empty_r, (split_on_absent _ _ Ht). eauto.
    - rewrite (split_on_app _ _ _ Ht). eauto. }
  destruct Hsplit as (tl & ->). destruct tok; reflexivity.
Qed.

Lemma authenticateToken_outcomes (g : Guards) (h : option string) :
  match snd (authenticateToken g h) with
  | inl res => status res = 401
  | inr user =>
      exists tok, bearer_token h = Some tok /\ jwt_verify g tok = Decoded user
  end
  /\ upstream_calls (fst (authenticateToken g h)) = [].
Proof.
  unfold authenticateToken.
  destruct (bearer_token h) as [tok|]; [|split; reflexivity].
  destruct (jwt_verify g tok) as [u|name msg] eqn:Hv.
  - destruct (get u "userId"); split; try reflexivity. cbn [snd]. eauto.
  - split; [|reflexivity]. cbn [snd].
    destruct (String.eqb name "TokenExpiredError"); [reflexivity|].
    destruct (String.eqb name "JsonWebTokenError"); reflexivity.
Qed.

Lemma upstream_calls_app (evs evs' : list Event) :
  upstream_calls (evs ++ evs')%list
  = (upstream_calls evs ++ upstream_calls evs')%list.
Proof. apply omap_app. Qed.

(** X15: on both routes the upstream is called only for a request
    whose header held a token that [jwt.verify] accepted and that the
    rate limiter let through: for every other request nothing is sent
    upstream, whatever its query or item id. *)
Theorem upstream_needs_verified_token (g : Guards) (w : World)
    (h : option string) (query : gmap string JsVal) (itemId : string) :
  upstream_calls (fst (search_route g w h query)) <> []
  \/ upstream_calls (fst (lookup_route g w h itemId)) <> [] ->
  limiter_allows g = true
  /\ exists tok user, bearer_token h = Some tok
                      /\ jwt_verify g tok = Decoded user.
Proof.
  unfold search_route, lookup_route.
  pose proof (authenticateToken_outcomes g h) as [Hout Hnone].
  destruct (authenticateToken g h) as [evs [res|user]]; cbn [fst snd] in *.
  - intros [H|H]; contradiction.
  - destruct Hout as (tok & Htok & Hv).
    destruct (limiter_allows g); [eauto|].
    cbn [fst]. intros [H|H]; contradiction.
Qed.

End AuthProofs.


(** ** The client: proofs *)

Section ClientProofs.
Context {E : JsEnv} {N : JsNumbers}.

(** The three kinds of response of the search route. *)
Lemma search_handler_responses (w : World) (query : gmap string JsVal) :
  (exists v, snd (search_handler w query) = invalid_response v)
  \/ (exists e, snd (search_handler w query) = error_response (development w) e)
  \/ (exists d, success_response w (searchParams_of query) d
                = Ok (snd (search_handler w query))).
Proof.
  unfold search_handler.
  destruct (search_try w query) as [evs [res|e]] eqn:Htry; cbn [snd];
    [|right; left; eauto].
  unfold search_try in Htry.
  destruct (validateSearchParams (searchParams_of query)) as [v|e];
    [|discriminate Htry].
  cbn [lift eff_bind] in Htry. destruct (isValid v); cbn [negb] in Htry.
  - destruct (buildItunesUrl (searchParams_of query)) as [url|e];
      [|discriminate Htry].
    cbn [lift eff_bind emit app] in Htry.
    destruct (axios_get w url) as [data|e]; [|discriminate Htry].
    cbn [eff_bind app] in Htry.
    destruct (processItunesResponse (clock w) (now_iso w) data) as [pd|e];
      [|discriminate Htry].
    cbn [eff_bind app] in Htry.
    destruct (success_response w (searchParams_of query) pd) as [r|e] eqn:Hs;
      [|discriminate Htry].
    injection Htry as _ <-. right; right. eauto.
  - cbn [emit eff_bind eff_ret app] in Htry. injection Htry as _ <-.
    left. eauto.
Qed.

Lemma error_response_message (dev : bool) (e : JsError) :
  status (error_response dev e) <> 200
  /\ exists props m,
       body (error_response dev e) = JObj props
       /\ props !! "message" = Some (JStr m) /\ m <> "".
Proof.
  assert (Hf : forall s a b, s <> 200 -> b <> "" ->
            status (failure s a b) <> 200
            /\ exists props m, body (failure s a b) = JObj props
                 /\ props !! "message" = Some (JStr m) /\ m <> "").
  { intros s a b Hs Hb. split; [exact Hs|].
    eexists _, b. split; [reflexivity|]. split; [reflexivity | exact Hb]. }
  unfold error_response.
  destruct (code_is e "ECONNABORTED" || code_is e "ETIMEDOUT");
    [apply Hf; discriminate|].
  destruct (match err_status e with Some s => s =? 403 | None => false end);
    [apply Hf; discriminate|].
  destruct (match err_status e with
            | Some s => (400 <=? s) && (s <? 500)
            | None => false
            end);
    [apply Hf; discriminate|].
  split; [discriminate|].
  destruct dev; eexists _, _; (split; [reflexivity|]);
    (split; [reflexivity | discriminate]).
Qed.

Lemma success_response_body (w : World) (p : SearchParams) (d : JsVal)
    (res : Response) :
  success_response w p d = Ok res ->
  status res = 200 /\ get (body res) "results" = Ok JUndefined
  /\ field res "data" = d.
Proof.
  unfold success_response.
  destruct (echoed_limit (limit p)) as [l|e]; [|discriminate].
  cbn [bind]. intros H. injection H as <-. repeat split; reflexivity.
Qed.

(** X16: what the search route answers with status 200 is never
    shown by the client.  The route puts the results under [data] in
    the body; [handleSearch] reads [response.data.results], which is
    [undefined] in every such body, so that reading its [length]
    throws: the list of results is cleared and the error of the
    [catch] is set to its default text. *)
Theorem successful_search_is_shown_as_failed (w : World)
    (query : gmap string JsVal) (st : AppState) (term : string) (media : JsVal) :
  trim term <> "" ->
  status (snd (search_handler w query)) = 200 ->
  handleSearch st term media (reply_of (snd (search_handler w query)))
  = {| searchResults := JArr []; loading := false;
       error := JStr "Search failed. Please try again.";
       searchTerm := term; mediaType := media |}.
Proof.
  intros Hterm H200.
  unfold handleSearch. apply String.eqb_neq in Hterm. rewrite Hterm.
  unfold reply_of. rewrite H200.
  change ((200 <=? 200) && (200 <? 300)) with true. cbv iota.
  destruct (search_handler_responses w query) as [(v & Hr)|[(e & Hr)|(d & Hr)]].
  - rewrite Hr in H200. discriminate H200.
  - destruct (error_response_message (development w) e) as [Hs _].
    rewrite Hr in H200. contradiction.
  - apply success_response_body in Hr as (_ & Hres & _).
    unfold show_results. rewrite Hres. reflexivity.
Qed.

(** X17: a search that the route refuses or fails is shown with the
    route's own message: for every response of the search route other
    than 200 the client clears its results and sets its error to the
    [message] field of the body, which is a string that is not empty. *)
Theorem failed_search_shows_route_message (w : World)
    (query : gmap string JsVal) (st : AppState) (term : string) (media : JsVal) :
  trim term <> "" ->
  status (snd (search_handler w query)) <> 200 ->
  exists m, m <> ""
    /\ field (snd (search_handler w query)) "message" = JStr m
    /\ handleSearch st term media (reply_of (snd (search_handler w query)))
       = {| searchResults := JArr []; loading := false; error := JStr m;
            searchTerm := term; mediaType := media |}.
Proof.
  intros Hterm Hs.
  unfold handleSearch. apply String.eqb_neq in Hterm. rewrite Hterm.
  destruct (search_handler_responses w query) as [(v & Hr)|[(e & Hr)|(d & Hr)]].
  - rewrite Hr. eexists. split; [|split; [reflexivity|reflexivity]]. discriminate.
  - rewrite Hr.
    assert (Hst : (200 <=? status (error_response (development w) e))
                  && (status (error_response (development w) e) <? 300) = false).
    { unfold error_response.
      destruct (code_is e "ECONNABORTED" || code_is e "ETIMEDOUT"); [reflexivity|].
      destruct (match err_status e with Some s => s =? 403 | None => false end);
        [reflexivity|].
      destruct (match err_status e with
                | Some s => (400 <=? s) && (s <? 500)
                | None => false
                end); reflexivity. }
    destruct (error_response_message (development w) e)
      as (_ & props & m & Hb & Hm & Hne).
    exists m. split; [exact Hne|]. unfold field, reply_of. rewrite Hst, Hb, Hm.
    split; [reflexivity|].
    unfold show_failure, shown_message. rewrite Hm. cbn [from_option id].
    unfold js_or, truthy. apply String.eqb_neq in Hne. rewrite Hne. reflexivity.
  - apply success_response_body in Hr as (H200 & _). contradiction.
Qed.


(** *** From the search bar to the upstream URL *)

Lemma strip_any_solid (c : ascii) (r : string) :
  solid c = true ->
  strip_any WHITE_SPACE (String c r) = None
  /\ strip_any (map str_rev WHITE_SPACE) (String c r) = None.
Proof.
  destruct c as [[] [] [] [] [] [] [] []]; intros H; try discriminate H;
    split; reflexivity.
Qed.

Lemma strip_all_solid (s : string) :
  all_bytes solid s = true ->
  strip_all WHITE_SPACE (String.length s) s = s
  /\ strip_all (map str_rev WHITE_SPACE) (String.length s) s = s.
Proof.
  destruct s as [|c r]; [split; reflexivity|].
  unfold all_bytes. cbn [list_ascii_of_string forallb String.length strip_all].
  intros H. apply andb_true_iff in H as [Hc _].
  destruct (strip_any_solid c r Hc) as [-> ->]. split; reflexivity.
Qed.

Lemma str_rev_length (s : string) : String.length (str_rev s) = String.length s.
Proof.
  unfold str_rev.
  rewrite <- (string_of_list_ascii_of_string s) at 2.
  generalize (list_ascii_of_string s). intros l.
  assert (Hlen : forall l', String.length (string_of_list_ascii l') = length l').
  { induction l' as [|a l' IH]; [reflexivity|]. cbn. rewrite IH. reflexivity. }
  rewrite !Hlen. apply length_rev.
Qed.

Lemma trim_solid (s : string) : all_bytes solid s = true -> trim s = s.
Proof.
  intros H. unfold trim, trimStart, trimEnd.
  destruct (strip_all_solid s H) as [-> _].
  assert (Hr : all_bytes solid (str_rev s) = true).
  { unfold all_bytes, str_rev in *.
    rewrite list_ascii_of_string_of_list_ascii.
    apply forallb_forall. intros x Hx. apply in_rev in Hx.
    revert x Hx. apply forallb_forall. exact H. }
  rewrite <- (str_rev_length s).
  destruct (strip_all_solid _ Hr) as [_ ->].
  unfold str_rev. rewrite list_ascii_of_string_of_list_ascii, rev_involutive.
  apply string_of_list_ascii_of_string.
Qed.

Lemma encodeURIComponent_byte_cases (c : ascii) :
  (uri_unreserved c = true /\ encodeURIComponent_byte c = String c EmptyString)
  \/ (uri_unreserved c = false
      /\ exists h1 h2, encodeURIComponent_byte c
                       = String "%" (String h1 (String h2 EmptyString))).
Proof.
  unfold encodeURIComponent_byte. destruct (uri_unreserved c); eauto.
Qed.

Lemma encodeURIComponent_byte_solid (c : ascii) :
  all_bytes solid (encodeURIComponent_byte c) = true.
Proof. destruct c as [[] [] [] [] [] [] [] []]; reflexivity. Qed.

Lemma encodeURIComponent_solid (s : string) :
  all_bytes solid (encodeURIComponent s) = true.
Proof.
  induction s as [|c s IH]; [reflexivity|].
  cbn [encodeURIComponent]. rewrite all_bytes_app, encodeURIComponent_byte_solid.
  exact IH.
Qed.

Lemma encodeURIComponent_nonempty (s : string) :
  s <> "" -> encodeURIComponent s <> "".
Proof.
  destruct s as [|c s]; [congruence|]. intros _. cbn [encodeURIComponent].
  destruct (encodeURIComponent_byte_cases c) as [[_ ->]|[_ (h1 & h2 & ->)]];
    rewrite append_cons; discriminate.
Qed.

Lemma encodeURIComponent_length (s : string) :
  (String.length s <= String.length (encodeURIComponent s))%nat.
Proof.
  induction s as [|c s IH]; [reflexivity|]. cbn [encodeURIComponent].
  destruct (encodeURIComponent_byte_cases c) as [[_ ->]|[_ (h1 & h2 & ->)]].
  - change (String c "" ++ encodeURIComponent s)
      with (String c (encodeURIComponent s)).
    cbn [String.length]. lia.
  - change (String "%" (String h1 (String h2 "")) ++ encodeURIComponent s)
      with (String "%" (String h1 (String h2 (encodeURIComponent s)))).
    cbn [String.length]. lia.
Qed.

Lemma encodeURIComponent_fixed (s : string) :
  encodeURIComponent s = s <-> all_bytes uri_unreserved s = true.
Proof.
  unfold all_bytes. induction s as [|c s IH]; [split; reflexivity|].
  cbn [encodeURIComponent list_ascii_of_string forallb].
  destruct (encodeURIComponent_byte_cases c) as [[Hu ->]|[Hu (h1 & h2 & ->)]];
    rewrite Hu; cbn [andb].
  - change (String c "" ++ encodeURIComponent s)
      with (String c (encodeURIComponent s)).
    rewrite <- IH. split; intros H; [injection H; auto | rewrite H; reflexivity].
  - split; [|discriminate].
    change (String "%" (String h1 (String h2 "")) ++ encodeURIComponent s)
      with (String "%" (String h1 (String h2 (encodeURIComponent s)))).
    intros H. injection H as _ H. exfalso.
    pose proof (encodeURIComponent_length s) as Hlen.
    apply (f_equal String.length) in H. cbn [String.length] in H. lia.
Qed.

(** The parameters that reach the route from the search bar. *)
Lemma received_searchParams (t m : string) :
  In m MEDIA_TYPES ->
  num_to_string (num_of_Z 50) = "50" ->
  searchParams_of (as_received (searchItunes_params t (JStr m) JUndefined))
  = {| term := JStr (encodeURIComponent t);
       media := if String.eqb m "all" then JUndefined else JStr m;
       limit := JStr "50"; country := JUndefined; entity := JUndefined;
       explicit := JUndefined |}.
Proof.
  intros Hin H50. unfold searchParams_of, as_received, searchItunes_params.
  cbn [In MEDIA_TYPES] in Hin.
  repeat (destruct Hin as [<-|Hin];
    [cbn [truthy strict_equal String.eqb Ascii.eqb Bool.eqb negb andb];
     rewrite !lookup_omap;
     repeat (rewrite lookup_insert_eq || (rewrite lookup_insert_ne by discriminate));
     rewrite ?lookup_empty; cbn [option_bind mbind to_string from_option id];
     rewrite ?H50; reflexivity|]).
  contradiction.
Qed.


(** X18: a search typed in the search bar passes the validation of
    the route and is sent upstream with the limit 50 of the client and
    the media type of the selector (['all'], which the client leaves
    out, is put back by the default of the builder).  Its term is
    percent-encoded by the client before the request is serialized,
    and the route does not decode it: the term that the upstream
    service receives is [encodeURIComponent(term)], which is the typed
    term only when every byte of it is an ASCII letter, a digit or one
    of [- _ . ! ~ * ' ( )]. *)
Theorem client_term_is_sent_encoded (t m : string) :
  trim t <> "" -> In m MEDIA_TYPES ->
  num_to_string (num_of_Z 50) = "50" ->
  let query := as_received (searchItunes_params t (JStr m) JUndefined) in
  (exists v url,
     validateSearchParams (searchParams_of query) = Ok v /\ isValid v = true
     /\ buildItunesUrl (searchParams_of query) = Ok url
     /\ parse_query (query_of url)
        = [ ("term", encodeURIComponent t); ("media", m); ("limit", "50");
            ("country", "US"); ("explicit", "Yes") ])
  /\ (encodeURIComponent t = t <-> all_bytes uri_unreserved t = true).
Proof.
  intros Ht Hm H50 query. split; [|apply encodeURIComponent_fixed].
  subst query. rewrite (received_searchParams t m Hm H50).
  assert (Hne : t <> "") by (intros ->; apply Ht; reflexivity).
  pose proof (trim_solid _ (encodeURIComponent_solid t)) as Htrim.
  assert (Hrej : term_rejected (JStr (encodeURIComponent t)) = false).
  { unfold term_rejected, truthy. rewrite Htrim.
    pose proof (encodeURIComponent_nonempty t Hne) as Henc.
    destruct (encodeURIComponent t); [contradiction | reflexivity]. }
  assert (Hgoal : forall p sp,
            validateSearchParams p
            = Ok {| isValid := true; errors := [] |} ->
            buildItunesParams p = Ok sp -> sp <> [] ->
            exists v url,
              validateSearchParams p = Ok v /\ isValid v = true
              /\ buildItunesUrl p = Ok url
              /\ parse_query (query_of url) = sp).
  { intros p sp Hv Hsp Hnil. eexists _, _. split; [exact Hv|].
    split; [reflexivity|]. unfold buildItunesUrl. rewrite Hsp. cbn [bind].
    split; [reflexivity|].
    rewrite query_of_built. apply parse_query_serialized, Hnil. }
  cbn [In MEDIA_TYPES] in Hm.
  repeat (destruct Hm as [<-|Hm];
    [apply Hgoal;
     [unfold validateSearchParams; cbn [term media limit country];
      rewrite Hrej; reflexivity
     |unfold buildItunesParams; cbn [term call_trim bind];
      rewrite Htrim; reflexivity
     |discriminate]|]).
  contradiction.
Qed.

End ClientProofs.


(** ** The favourites: proofs *)

Section FavoritesProofs.
Context {E : JsEnv} {N : JsNumbers}.

Lemma strict_equal_sym (a b : JsVal) :
  (forall x y, num_equal x y = num_equal y x) ->
  strict_equal a b = strict_equal b a.
Proof.
  intros Hsym. destruct a, b; try reflexivity; cbn [strict_equal].
  - destruct b, b0; reflexivity.
  - apply Hsym.
  - apply String.eqb_sym.
Qed.

Lemma existsb_false_lookup {A : Type} (f : A -> bool) (l : list A) (i : nat) (a : A) :
  existsb f l = false -> l !! i = Some a -> f a = false.
Proof.
  revert i. induction l as [|x l IH]; intros i H Hi; [discriminate Hi|].
  cbn [existsb] in H. apply orb_false_iff in H as [Hx Hl].
  destruct i as [|i]; [injection Hi as <-; exact Hx|].
  apply (IH i Hl Hi).
Qed.

Lemma distinct_ids_tail (x : gmap string JsVal) (l : list (gmap string JsVal)) :
  distinct_ids (x :: l) -> distinct_ids l.
Proof.
  intros H i j a b Hi Hj Hij. apply (H (S i) (S j) a b Hi Hj). lia.
Qed.

Lemma distinct_ids_filter (f : gmap string JsVal -> bool)
    (l : list (gmap string JsVal)) :
  distinct_ids l -> distinct_ids (List.filter f l).
Proof.
  induction l as [|x l IH]; intros H; [exact H|].
  pose proof (IH (distinct_ids_tail x l H)) as Hl.
  cbn [List.filter]. destruct (f x); [|exact Hl].
  assert (Hsub : forall k c, List.filter f l !! k = Some c ->
                   exists k', l !! k' = Some c).
  { intros k c Hk. apply list_elem_of_lookup_2 in Hk.
    apply list_elem_of_In, filter_In in Hk as [Hk _].
    apply list_elem_of_In, list_elem_of_lookup_1 in Hk. exact Hk. }
  intros i j a b Hi Hj Hij.
  destruct i as [|i], j as [|j]; [contradiction Hij; reflexivity| | |].
  - injection Hi as <-. destruct (Hsub _ _ Hj) as (k' & Hk').
    apply (H 0%nat (S k') x b eq_refl Hk'). discriminate.
  - injection Hj as <-. destruct (Hsub _ _ Hi) as (k' & Hk').
    apply (H (S k') 0%nat a x Hk' eq_refl). discriminate.
  - apply (Hl i j a b Hi Hj). lia.
Qed.

(** X19: no two favourites share an id, whatever is added or removed:
    if the ids of the list are pairwise different under [===], they
    still are after [addToFavorites] and after [removeFromFavorites];
    an item whose id is already in the list is not added again. *)
Theorem favorites_ids_stay_distinct (favorites : list (gmap string JsVal))
    (item : gmap string JsVal) (itemId : JsVal) :
  (forall x y, num_equal x y = num_equal y x) ->
  distinct_ids favorites ->
  distinct_ids (addToFavorites favorites item)
  /\ distinct_ids (removeFromFavorites favorites itemId)
  /\ (isFavorite favorites (uniqueId item) = true ->
      addToFavorites favorites item = favorites).
Proof.
  intros Hsym Hd. split; [|split].
  - unfold addToFavorites.
    destruct (existsb _ favorites) eqn:Hex; [exact Hd|].
    intros i j a b Hi Hj Hij.
    apply lookup_app_Some in Hi as [Hi|[Hli Hi]];
      apply lookup_app_Some in Hj as [Hj|[Hlj Hj]].
    + apply (Hd i j a b Hi Hj Hij).
    + apply list_lookup_singleton_Some in Hj as [_ <-].
      apply (existsb_false_lookup _ _ _ _ Hex Hi).
    + apply list_lookup_singleton_Some in Hi as [_ <-].
      rewrite (strict_equal_sym _ _ Hsym).
      apply (existsb_false_lookup _ _ _ _ Hex Hj).
    + apply list_lookup_singleton_Some in Hi as [Hi _].
      apply list_lookup_singleton_Some in Hj as [Hj _]. lia.
  - apply distinct_ids_filter, Hd.
  - unfold isFavorite, addToFavorites. intros ->. reflexivity.
Qed.

Lemma filter_all {A : Type} (f : A -> bool) (l : list A) :
  (forall x, In x l -> f x = true) -> List.filter f l = l.
Proof.
  induction l as [|x l IH]; intros H; [reflexivity|].
  cbn [List.filter]. rewrite (H x (or_introl eq_refl)), IH; [reflexivity|].
  intros y Hy. apply H. right. exact Hy.
Qed.

(** X20: the heart of a card toggles: after [addToFavorites] the item
    is a favourite, after [removeFromFavorites] no item with that id
    is one, and removing an item that was just added to a list that did
    not have it gives that list again.  The id has to equal itself,
    which every number but [NaN], every string and every boolean
    does. *)
Theorem favorite_toggle (favorites : list (gmap string JsVal))
    (item : gmap string JsVal) (itemId : JsVal) :
  strict_equal (uniqueId item) (uniqueId item) = true ->
  isFavorite (addToFavorites favorites item) (uniqueId item) = true
  /\ isFavorite (removeFromFavorites favorites itemId) itemId = false
  /\ (isFavorite favorites (uniqueId item) = false ->
      removeFromFavorites (addToFavorites favorites item) (uniqueId item)
      = favorites).
Proof.
  intros Hself. split; [|split].
  - unfold isFavorite, addToFavorites.
    destruct (existsb _ favorites) eqn:Hex; [exact Hex|].
    rewrite existsb_app. cbn [existsb]. rewrite Hself.
    apply orb_true_iff. right. reflexivity.
  - unfold isFavorite, removeFromFavorites.
    destruct (existsb _ (List.filter _ favorites)) eqn:Hex; [|reflexivity].
    apply existsb_exists in Hex as (x & Hx & Heq).
    apply filter_In in Hx as [_ Hx]. rewrite Heq in Hx. discriminate Hx.
  - unfold isFavorite, addToFavorites, removeFromFavorites. intros Hex.
    rewrite Hex, List.filter_app. cbn [List.filter]. rewrite Hself. cbn [negb].
    rewrite app_nil_r. apply filter_all. intros x Hx.
    apply negb_true_iff.
    destruct (strict_equal (uniqueId x) (uniqueId item)) eqn:Heq; [|reflexivity].
    assert (Ht : existsb (fun fav => strict_equal (uniqueId fav) (uniqueId item))
                   favorites = true)
      by (apply existsb_exists; eauto).
    rewrite Ht in Hex. discriminate Hex.
Qed.

Lemma removals_filter (l acc : list (gmap string JsVal)) :
  fold_left (fun prev item => removeFromFavorites prev (uniqueId item)) l acc
  = List.filter
      (fun fav => forallb (fun item => negb (strict_equal (uniqueId fav) (uniqueId item))) l)
      acc.
Proof.
  revert acc. induction l as [|x l IH]; intros acc.
  - cbn [fold_left forallb]. symmetry. apply filter_all. reflexivity.
  - cbn [fold_left forallb]. rewrite IH. unfold removeFromFavorites.
    induction acc as [|a acc IHacc]; [reflexivity|].
    cbn [List.filter].
    destruct (negb (strict_equal (uniqueId a) (uniqueId x))); cbn [List.filter andb];
      [destruct (forallb _ l); rewrite IHacc; reflexivity | exact IHacc].
Qed.

(** X21: [Clear All] empties the list when every id equals itself:
    the removals, one for each favourite and each applied to what the
    one before left, leave nothing. *)
Theorem clear_all_leaves_nothing (favorites : list (gmap string JsVal)) :
  (forall fav, In fav favorites ->
     strict_equal (uniqueId fav) (uniqueId fav) = true) ->
  handleClearAll favorites = [].
Proof.
  intros Hself. unfold handleClearAll. rewrite removals_filter.
  assert (H : forall acc, (forall a, In a acc -> In a favorites) ->
            List.filter
              (fun fav => forallb (fun item =>
                 negb (strict_equal (uniqueId fav) (uniqueId item))) favorites)
              acc = []).
  { induction acc as [|a acc IH]; intros Hin; [reflexivity|].
    cbn [List.filter].
    assert (Hf : forallb (fun item =>
                   negb (strict_equal (uniqueId a) (uniqueId item))) favorites
                 = false).
    { destruct (forallb _ favorites) eqn:Hall; [|reflexivity].
      pose proof (proj1 (forallb_forall _ _) Hall a (Hin a (or_introl eq_refl)))
        as Ha.
      cbv beta in Ha.
      rewrite (Hself a (Hin a (or_introl eq_refl))) in Ha. discriminate Ha. }
    rewrite Hf. apply IH. intros b Hb. apply Hin. right. exact Hb. }
  apply H. auto.
Qed.

End FavoritesProofs.


(** ** The logger: proofs *)

Section LoggerProofs.
Context {E : JsEnv} {N : JsNumbers}.




(** X24: whatever [LOG_LEVEL] holds, errors are logged: the threshold
    is one of the four levels, or no number at all when the name is one
    that every object inherits, and in neither case does it filter the
    level [ERROR]; a name that is no level selects the default of the
    environment, [INFO] in production and [DEBUG] elsewhere. *)
Theorem errors_pass_every_threshold (env : LogEnv) (upper : option string) :
  threshold env = CURRENT_LOG_LEVEL upper (NODE_ENV env) ->
  filtered env ERROR = false
  /\ (forall name, upper = Some name -> level_of_name name = None ->
      mem name OBJECT_PROTOTYPE_KEYS = false ->
      forall level,
        filtered env level
        = if env_is env "production"
          then match level with DEBUG => true | _ => false end
          else false).
Proof.
  intros Ht. unfold filtered. rewrite Ht. split.
  - unfold CURRENT_LOG_LEVEL.
    destruct upper as [name|].
    + destruct (level_of_name name) as [[]|]; try reflexivity.
      destruct (mem name OBJECT_PROTOTYPE_KEYS); [reflexivity|].
      destruct (NODE_ENV env) as [e|]; [destruct (String.eqb e "production")|];
        reflexivity.
    + destruct (NODE_ENV env) as [e|]; [destruct (String.eqb e "production")|];
        reflexivity.
  - intros name -> Hl Hm level. unfold CURRENT_LOG_LEVEL, env_is.
    rewrite Hl, Hm.
    destruct (NODE_ENV env) as [e|]; [destruct (String.eqb e "production")|];
      destruct level; reflexivity.
Qed.

Lemma hd_split_on_app (c : ascii) (s t : string) :
  occurs c s = false ->
  hd EmptyString (split_on c (s ++ t)) = s ++ hd EmptyString (split_on c t).
Proof.
  induction s as [|a s IH]; [reflexivity|].
  cbn [occurs]. intros H. apply orb_false_iff in H as [Ha Hs].
  rewrite !append_cons. cbn [split_on]. rewrite Ha.
  specialize (IH Hs).
  destruct (split_on c (s ++ t)) as [|x xs]; cbn [hd] in *;
    rewrite <- IH; reflexivity.
Qed.

Lemma fileDate_year (y rest : string) :
  occurs "-" y = false -> occurs "." y = false ->
  fileDate (y ++ String "-" rest) = y.
Proof.
  intros Hd Hp. unfold fileDate.
  rewrite (hd_split_on_app "." y _ Hp).
  cbn [split_on Ascii.eqb Bool.eqb].
  destruct (split_on "." rest) as [|x xs]; cbn [hd];
    rewrite (split_on_app "-" y _ Hd); reflexivity.
Qed.

Lemma deleted_app (a b : list Output) :
  deleted (a ++ b) = (deleted a ++ deleted b)%list.
Proof. apply omap_app. Qed.

Lemma deleted_log (env : LogEnv) (level : Level) (message : string) :
  deleted (log env level message) = [].
Proof.
  unfold log. destruct (filtered env level); [reflexivity|].
  unfold writeToFile. destruct (env_is env "test").
  - destruct (negb (env_is env "production")); reflexivity.
  - destruct (append_succeeds env (today env ++ ".log")); cbn [negb].
    + destruct level;
        try (destruct (negb (env_is env "production")); reflexivity).
      destruct (append_succeeds env (today env ++ "-error.log"));
        destruct (negb (env_is env "production")); reflexivity.
    + destruct (negb (env_is env "production")); reflexivity.
Qed.

Lemma cleanup_deleted (env : LogEnv) (t : time) (files : list string) :
  (forall f, In f files -> unlink_succeeds env f = true) ->
  deleted (cleanup env t files) = List.filter (expired t) files.
Proof.
  induction files as [|f files IH]; intros Hok; [reflexivity|].
  cbn [cleanup List.filter].
  assert (IH' := IH (fun g Hg => Hok g (or_intror Hg))).
  destruct (expired t f); [|exact IH'].
  rewrite (Hok f (or_introl eq_refl)).
  change (Unlink f :: ?l) with ([Unlink f] ++ l)%list.
  rewrite !deleted_app, deleted_log, IH'. reflexivity.
Qed.

(** X25: [cleanup] goes by the year alone.  Of a file name it reads
    what precedes the first [.] and then the first [-]: for the names
    [YYYY-MM-DD.log] and [YYYY-MM-DD-error.log] that the logger writes
    this is [YYYY], so that month and day play no part: when the
    deletions succeed, two log files of one year are both deleted or
    both kept, the file of today together with that of January 1st. *)
Theorem cleanup_goes_by_year (env : LogEnv) (thirtyDaysAgo : time)
    (files : list string) (y rest rest' : string) :
  occurs "-" y = false -> occurs "." y = false ->
  (forall f, In f files -> unlink_succeeds env f = true) ->
  In (y ++ String "-" rest) files -> In (y ++ String "-" rest') files ->
  fileDate (y ++ String "-" rest) = y
  /\ (In (y ++ String "-" rest) (deleted (cleanup env thirtyDaysAgo files))
      <-> In (y ++ String "-" rest') (deleted (cleanup env thirtyDaysAgo files))).
Proof.
  intros Hd Hp Hok Hin Hin'. split; [apply fileDate_year; assumption|].
  rewrite (cleanup_deleted env thirtyDaysAgo files Hok), !filter_In.
  unfold expired. rewrite !fileDate_year by assumption. tauto.
Qed.

End LoggerProofs.


(** ** More examples: checks *)

Section MoreChecks.
#[local] Existing Instance IntEngine.
#[local] Existing Instance IntNumbers.

Lemma IntNumbers_sound : @sound_numbers IntEngine IntNumbers.
Proof.
  split; [|split].
  - intros [a|] [b|]; try reflexivity. apply Z.eqb_sym.
  - reflexivity.
  - intros [n|] H; [|reflexivity]. cbn in H |- *.
    apply negb_true_iff in H. exact H.
Qed.

(** The accent is written as two escaped bytes, the spaces as [+], the
    ampersand as [%26]. *)
Lemma built_url_is_ascii_safe_accented :
  buildItunesUrl accented_term = Ok accented_url
  /\ all_bytes url_byte accented_url = true.
Proof.
  assert (Hu : buildItunesUrl accented_term = Ok accented_url) by reflexivity.
  split; [exact Hu|].
  apply (built_url_is_ascii_safe accented_term accented_url Hu).
Defined.

Lemma built_url_round_trip_adele :
  buildItunesParams (searchParams_of adele_query)
  = Ok [ ("term", "Adele"); ("media", "music"); ("limit", "5");
         ("country", "US"); ("explicit", "Yes") ].
Proof.
  destruct (built_url_round_trip (searchParams_of adele_query) adele_url eq_refl)
    as [H _].
  rewrite H. reflexivity.
Defined.

Lemma error_detail_only_in_development_failure :
  field (snd (search_handler development_world adele_query)) "details"
  = JStr "Request failed with status code 500"
  /\ development development_world = true
  /\ status (snd (search_handler development_world adele_query)) = 500.
Proof.
  assert (Hd : field (snd (search_handler development_world adele_query)) "details"
               = JStr "Request failed with status code 500") by reflexivity.
  split; [exact Hd|].
  apply (error_detail_only_in_development development_world adele_query).
  rewrite Hd. discriminate.
Defined.

Lemma search_success_adele :
  fst (search_handler answering_world adele_query)
  = [ LogInfo "iTunes API search request"; AxiosGet adele_url 10000;
      LogInfo "iTunes API search completed" ]
  /\ status (snd (search_handler answering_world adele_query)) = 200.
Proof.
  assert (Hp : exists processed,
            processItunesResponse (clock answering_world) (now_iso answering_world)
              (JObj one_result) = Ok processed)
    by (eexists; reflexivity).
  destruct Hp as (processed & Hp).
  destruct (search_success answering_world adele_query _ adele_url
              (JObj one_result) processed eq_refl eq_refl eq_refl eq_refl eq_refl Hp)
    as (Hevs & Hs & _).
  split; [exact Hevs | exact Hs].
Defined.

Lemma limit_forwarded_verbatim_5abc :
  exists sp, buildItunesParams limit_5abc = Ok sp /\ In ("limit", "5abc") sp
    /\ echoed_limit (limit limit_5abc) = Ok (JNum (Some 5)).
Proof.
  destruct (limit_forwarded_verbatim limit_5abc _ "5abc" eq_refl eq_refl eq_refl
              eq_refl ltac:(discriminate))
    as (n & sp & Hn & _ & He & Hsp & Hin).
  exists sp. split; [exact Hsp|]. split; [exact Hin|].
  vm_compute in Hn. injection Hn as <-. exact He.
Defined.

Lemma validated_query_builds_array :
  validateSearchParams country_array = Ok {| isValid := true; errors := [] |}
  /\ exists url, buildItunesUrl country_array = Ok url.
Proof.
  split; [reflexivity|].
  apply (validated_query_builds country_array _ eq_refl eq_refl).
  exists "Yes". reflexivity.
Defined.

Lemma normalized_fields_present_scenario_3 :
  exists out, enhance (Some 0) (JObj scenario_3_record) = Ok out
    /\ (exists m, get out "mediaType" = Ok m /\ truthy m = true)
    /\ (exists f, get out "formattedPrice" = Ok (JStr f)).
Proof.
  assert (Ho : exists out, enhance (Some 0) (JObj scenario_3_record) = Ok out)
    by (eexists; reflexivity).
  destruct Ho as (out & Ho). exists out. split; [exact Ho|].
  destruct (normalized_fields_present (E := IntEngine) (Some 0) _ out Ho)
    as (Hm & _ & Hf & _).
  split; [exact Hm | exact Hf].
Defined.

Lemma results_must_be_an_array_string :
  truthy (default JUndefined (results_not_array !! "results")) = true
  /\ exists e, processItunesResponse (fun _ => Some 0) "" (JObj results_not_array)
               = Throw e /\ plain e.
Proof.
  split; [reflexivity|].
  destruct (results_must_be_an_array (E := IntEngine) (fun _ => Some 0) ""
              results_not_array) as (_ & H & _).
  apply H; [reflexivity|].
  intros xs Hx. change (Some (JStr "none") = Some (JArr xs)) in Hx.
  discriminate Hx.
Defined.

Lemma resultCount_is_not_recounted_one :
  exists resp,
    processItunesResponse (fun _ => Some 0) "" (JObj uncounted_results) = Ok resp
    /\ get resp "resultCount" = Ok (JNum (Some 0))
    /\ exists outs, get resp "results" = Ok (JArr outs) /\ length outs = 1%nat.
Proof.
  assert (Hp : exists resp,
            processItunesResponse (fun _ => Some 0) "" (JObj uncounted_results)
            = Ok resp)
    by (eexists; reflexivity).
  destruct Hp as (resp & Hp). exists resp. split; [exact Hp|].
  apply (resultCount_is_not_recounted (E := IntEngine) (fun _ => Some 0) ""
           uncounted_results [JObj scenario_3_record] resp eq_refl eq_refl Hp).
Defined.

Lemma lookup_id_is_checked_12a :
  test_digits "12a" = false
  /\ lookup_handler timeout_world "12a"
     = ([], failure 400 "Invalid ID" "Item ID must be a valid number").
Proof.
  split; [reflexivity|].
  destruct (lookup_id_is_checked timeout_world "12a") as [H _].
  apply H. reflexivity.
Defined.


Lemma lookup_failures_are_500_timeout :
  responds (snd (lookup_handler timeout_world "909253")) 500 "Lookup Failed".
Proof.
  destruct (lookup_failures_are_500 timeout_world "909253" timeout_error eq_refl
              (or_introl eq_refl)) as [H _].
  exact H.
Defined.

Lemma token_is_second_piece_basic :
  bearer_token (Some "Basic abc") = Some "abc".
Proof.
  apply (token_is_second_piece "Basic" "abc" "" eq_refl eq_refl (or_introl eq_refl)).
Defined.

Lemma upstream_needs_verified_token_good :
  upstream_calls
    (fst (search_route one_token_guards answering_world (Some "Bearer good")
            adele_query))
  = [(adele_url, 10000)]
  /\ exists tok user, bearer_token (Some "Bearer good") = Some tok
       /\ jwt_verify one_token_guards tok = Decoded user.
Proof.
  assert (Hc : upstream_calls
                 (fst (search_route one_token_guards answering_world
                         (Some "Bearer good") adele_query))
               = [(adele_url, 10000)]) by reflexivity.
  split; [exact Hc|].
  destruct (upstream_needs_verified_token one_token_guards answering_world
              (Some "Bearer good") adele_query "1") as [_ H]; [|exact H].
  left. rewrite Hc. discriminate.
Defined.

(** The one result that the upstream returned is not shown. *)
Lemma successful_search_is_shown_as_failed_adele :
  status (snd (search_handler answering_world adele_query)) = 200
  /\ handleSearch initial_state "Adele" (JStr "music")
       (reply_of (snd (search_handler answering_world adele_query)))
     = {| searchResults := JArr []; loading := false;
          error := JStr "Search failed. Please try again.";
          searchTerm := "Adele"; mediaType := JStr "music" |}.
Proof.
  split; [reflexivity|].
  apply (successful_search_is_shown_as_failed answering_world adele_query
           initial_state "Adele" (JStr "music")); [|reflexivity].
  assert (Ht : trim "Adele" = "Adele") by reflexivity.
  rewrite Ht. discriminate.
Defined.

Lemma failed_search_shows_route_message_timeout :
  handleSearch initial_state "Adele" (JStr "music")
    (reply_of (snd (search_handler timeout_world adele_query)))
  = {| searchResults := JArr []; loading := false;
       error := JStr "iTunes API request timed out. Please try again.";
       searchTerm := "Adele"; mediaType := JStr "music" |}.
Proof.
  assert (Ht : trim "Adele" = "Adele") by reflexivity.
  assert (Hs : status (snd (search_handler timeout_world adele_query)) = 408)
    by reflexivity.
  destruct (failed_search_shows_route_message timeout_world adele_query
              initial_state "Adele" (JStr "music"))
    as (m & _ & Hf & Hh).
  - rewrite Ht. discriminate.
  - rewrite Hs. discriminate.
  - change (JStr "iTunes API request timed out. Please try again." = JStr m) in Hf.
    injection Hf as <-. exact Hh.
Defined.

(** The space of [Daft Punk] reaches the upstream as [%20]. *)
Lemma client_term_is_sent_encoded_daft_punk :
  exists url,
    buildItunesUrl
      (searchParams_of
         (as_received (searchItunes_params "Daft Punk" (JStr "music") JUndefined)))
    = Ok url
    /\ parse_query (query_of url)
       = [ ("term", "Daft%20Punk"); ("media", "music"); ("limit", "50");
           ("country", "US"); ("explicit", "Yes") ].
Proof.
  assert (Ht : trim "Daft Punk" = "Daft Punk") by reflexivity.
  destruct (client_term_is_sent_encoded (E := IntEngine) "Daft Punk" "music")
    as [(v & url & _ & _ & Hu & Hq) _].
  - rewrite Ht. discriminate.
  - right. left. reflexivity.
  - reflexivity.
  - exists url. split; [exact Hu | exact Hq].
Defined.

Lemma favorites_ids_stay_distinct_two :
  distinct_ids (addToFavorites [fav42] fav7)
  /\ addToFavorites [fav42] fav7 = [fav42; fav7].
Proof.
  split; [|reflexivity].
  apply (favorites_ids_stay_distinct (E := IntEngine) (N := IntNumbers)
           [fav42] fav7 JNull (proj1 IntNumbers_sound)).
  intros [|i] [|j] a b Hi Hj Hij; try discriminate Hi; try discriminate Hj.
  contradiction Hij. reflexivity.
Defined.

Lemma favorite_toggle_42 :
  isFavorite (addToFavorites [fav7] fav42) (JNum (Some 42)) = true
  /\ removeFromFavorites (addToFavorites [fav7] fav42) (JNum (Some 42)) = [fav7].
Proof.
  destruct (favorite_toggle (E := IntEngine) (N := IntNumbers) [fav7] fav42 JNull
              eq_refl) as (Hadd & _ & Hrem).
  split; [exact Hadd | apply Hrem; reflexivity].
Defined.

Lemma clear_all_leaves_nothing_two : handleClearAll [fav42; fav7] = [].
Proof.
  apply (clear_all_leaves_nothing (E := IntEngine) (N := IntNumbers)).
  intros fav [<-|[<-|[]]]; reflexivity.
Defined.


(** [LOG_LEVEL=verbose] in production: the default [INFO] applies. *)
Lemma errors_pass_every_threshold_verbose :
  threshold production_env = CURRENT_LOG_LEVEL (Some "VERBOSE") (Some "production")
  /\ filtered production_env ERROR = false
  /\ filtered production_env DEBUG = true.
Proof.
  split; [reflexivity|].
  destruct (errors_pass_every_threshold production_env (Some "VERBOSE") eq_refl)
    as [He Hd].
  split; [exact He|].
  rewrite (Hd "VERBOSE" eq_refl eq_refl eq_refl DEBUG). reflexivity.
Defined.

(** The log of 2025-02-14 is read as the year 2025, like that of
    2025-01-01. *)
Lemma cleanup_goes_by_year_2025 :
  fileDate "2025-02-14.log" = "2025"
  /\ (In "2025-02-14.log" (deleted (cleanup production_env january_15 log_files))
      <-> In "2025-01-01.log" (deleted (cleanup production_env january_15 log_files))).
Proof.
  apply (cleanup_goes_by_year (E := IntEngine) production_env january_15 log_files
           "2025" "02-14.log" "01-01.log" eq_refl eq_refl).
  - intros f _. reflexivity.
  - left. reflexivity.
  - right. left. reflexivity.
Defined.

End MoreChecks.
